(** * simple-pos: cart store and order creation

    A shallow embedding of [src/store/cart.ts] (the Zustand cart store) and
    of [src/server/api/routers/order.ts] (the [createOrder] mutation), with
    the properties the specification states about them.

    JavaScript [number] values are IEEE-754 binary64 and are modelled by
    Rocq's primitive floats, which are binary64 as well.  JavaScript objects
    that are shared by reference (cart lines, the [items] array) live in an
    explicit heap.  The database and the payment gateway are outside the
    source; their possible behaviours are the fields of a [World] record. *)

From Stdlib Require Import Floats ZArith.
From stdpp Require Import gmap strings list fin_maps.

Open Scope string_scope.
Open Scope list_scope.

(** ** JavaScript numbers *)

(** [number]: a binary64 value. *)
Abbreviation number := float.

Module Js.

(** The literal [0.1] of the source denotes the binary64 value nearest to
    one tenth. *)
Definition tenth : number := 0x1.999999999999ap-4%float.

(** The binary64 value nearest to the integer [z]; [z] itself when
    [|z| < 2^53]. *)
Definition of_Z (z : Z) : number :=
  SF2Prim (binary_normalize prec emax z 0 false).

(** [Number.isInteger] *)
Definition isInteger (x : number) : bool :=
  match Prim2SF x with
  | S754_zero _ => true
  | S754_finite _ m e => (0 <=? e)%Z || (Z.pos m mod 2 ^ (- e) =? 0)%Z
  | S754_infinity _ | S754_nan => false
  end.

(** Sign bit clear and not [NaN]. *)
Definition nonneg (x : number) : bool :=
  match Prim2SF x with
  | S754_zero s | S754_infinity s | S754_finite s _ _ => negb s
  | S754_nan => false
  end.


End Js.

(** ** The cart store ([src/store/cart.ts]) *)

Module Cart.

(** [type CartItem] *)
Record CartItem := mkCartItem {
  productId : string;
  name : string;
  price : number;
  quantity : number;
  imageUrl : string;
}.

(** [type AddToCartItem = Omit<CartItem, "quantity">] *)
Record AddToCartItem := mkAddToCartItem {
  new_productId : string;
  new_name : string;
  new_price : number;
  new_imageUrl : string;
}.

(** Object identities.  A cart line is an object; the [items] array is an
    object holding references to line objects. *)
Definition loc := positive.

Record Heap := mkHeap {
  lines : gmap loc CartItem;
  arrays : gmap loc (list loc);
}.

(** [interface CartState]; the [addToCart] field is the function below and
    is the same in every state, so only [items] is kept. *)
Record CartState := mkCartState {
  items : loc;
}.

(** The elements of the array a reference points to. *)
Definition array_at (h : Heap) (a : loc) : list loc :=
  default [] (arrays h !! a).

(** [Array.prototype.findIndex] with the callback
    [(item) => item.productId === pid]; [None] stands for [-1]. *)
Fixpoint findIndex (h : Heap) (pid : string) (l : list loc) : option nat :=
  match l with
  | [] => None
  | r :: l' =>
      match lines h !! r with
      | Some item =>
          if String.eqb (productId item) pid then Some 0
          else S <$> findIndex h pid l'
      | None => S <$> findIndex h pid l'
      end
  end.

(** [itemToUpdate.quantity += 1] on the object itself. *)
Definition bump (item : CartItem) : CartItem :=
  {| productId := productId item;
     name := name item;
     price := price item;
     quantity := (quantity item + 1)%float;
     imageUrl := imageUrl item |}.

Definition new_line (newItem : AddToCartItem) : CartItem :=
  {| productId := new_productId newItem;
     name := new_name newItem;
     price := new_price newItem;
     quantity := 1%float;
     imageUrl := new_imageUrl newItem |}.

(** The callback handed to [set] in [addToCart], run on the current state.
    [duplicateItems] is a fresh array holding the same references as
    [currentState.items]. *)
Definition addToCart (newItem : AddToCartItem) (h : Heap)
    (currentState : CartState) : Heap * CartState :=
  let duplicateItems : loc := fresh (dom (arrays h)) in
  let elems := array_at h (items currentState) in
  match findIndex h (new_productId newItem) elems with
  | None =>
      let o : loc := fresh (dom (lines h)) in
      ({| lines := <[o := new_line newItem]> (lines h);
          arrays := <[duplicateItems := elems ++ [o]]> (arrays h) |},
       {| items := duplicateItems |})
  | Some existingItemIndex =>
      match elems !! existingItemIndex with
      | None =>
          ({| lines := lines h;
              arrays := <[duplicateItems := elems]> (arrays h) |},
           currentState)
      | Some itemToUpdate =>
          ({| lines := alter bump itemToUpdate (lines h);
              arrays := <[duplicateItems := elems]> (arrays h) |},
           {| items := duplicateItems |})
      end
  end.

(** The line objects a list of references denotes. *)
Definition deref_all (ls : gmap loc CartItem) (l : list loc) : list CartItem :=
  omap (λ r, ls !! r) l.

(** What a holder of a state reference observes: the lines of its
    [items] array, in order. *)
Definition view (h : Heap) (s : CartState) : list CartItem :=
  deref_all (lines h) (array_at h (items s)).

Definition allocated (ls : gmap loc CartItem) (l : list loc) : Prop :=
  ∀ r, r ∈ l → is_Some (ls !! r).

(** The state's array exists and every slot of it refers to a line
    object, as in any JavaScript [CartItem[]] without holes. *)
Definition wf (h : Heap) (s : CartState) : Prop :=
  is_Some (arrays h !! items s) ∧ allocated (lines h) (array_at h (items s)).

(** At most one line per [productId]. *)
Definition one_line_per_product (h : Heap) (s : CartState) : Prop :=
  NoDup (productId <$> view h s).

(** The initial state of the store: [items: []]. *)
Definition empty_heap : Heap := {| lines := ∅; arrays := {[1%positive := []]} |}.
Definition empty_cart : CartState := {| items := 1%positive |}.

(** The store after a sequence of [addToCart] calls. *)
Definition addAll (newItems : list AddToCartItem) (hs : Heap * CartState)
    : Heap * CartState :=
  foldl (λ hs newItem, addToCart newItem hs.1 hs.2) hs newItems.

End Cart.

(** ** Order creation ([src/server/api/routers/order.ts]) *)

Module Order.

(** *** Rows and payloads *)

(** A [Product] row as Prisma hands it to the code. *)
Record Product := mkProduct {
  product_id : string;
  product_name : string;
  product_price : number;
  product_imageUrl : string;
  product_categoryId : string;
}.

(** Only the default status is named in the source (line 97). *)
Inductive OrderStatus :=
| AWAITING_PAYMENT
| OtherStatus (label : string).

Record Order := mkOrder {
  order_id : string;
  order_grandTotal : number;
  order_subtotal : number;
  order_tax : number;
  order_status : OrderStatus;
  order_externalTransactionId : option string;
  order_paymentMethodId : option string;
}.

Record OrderItem := mkOrderItem {
  oi_orderId : string;
  oi_price : number;
  oi_productId : string;
  oi_quantity : number;
}.

(** One element of [orderItems] as the client sends it.  [raw_extra]
    holds whatever other numeric keys the client attached (a [price],
    say); the schema does not mention them. *)
Record RawItem := mkRawItem {
  raw_productId : string;
  raw_quantity : number;
  raw_extra : list (string * number);
}.

(** One element of [orderItems] after parsing: the two keys of the
    schema. *)
Record ClientItem := mkClientItem {
  item_productId : string;
  item_quantity : number;
}.

(** The value [createQRIS] resolves to, as far as [createOrder] reads it. *)
Record ChannelProperties := mkChannelProperties {
  cp_qrString : option string;
}.

Record QrCode := mkQrCode {
  qr_channelProperties : option ChannelProperties;
}.

Record PaymentMethod := mkPaymentMethod {
  pm_id : string;
  pm_qrCode : option QrCode;
}.

Record PaymentRequest := mkPaymentRequest {
  pr_id : string;
  pr_paymentMethod : PaymentMethod;
}.

(** The result of [createMany]. *)
Record BatchPayload := mkBatchPayload {
  count : nat;
}.

Record Response := mkResponse {
  order : Order;
  newOrderItems : BatchPayload;
  qrString : option string;
}.

(** *** Exceptions *)

Inductive ZodIssueCode := invalid_type | too_small.

(** An issue at [orderItems[index].quantity]. *)
Record ZodIssue := mkZodIssue {
  issue_index : nat;
  issue_code : ZodIssueCode;
}.

(** What a procedure call can reject with. *)
Inductive Thrown :=
| UNAUTHORIZED
| ZodError (issues : list ZodIssue)
| PrismaError (message : string)
| XenditError (message : string)
| TypeError (message : string).

(** *** The database and the outside world *)

Record Db := mkDb {
  products : list Product;
  orders : list Order;
  orderItems : list OrderItem;
}.

(** Everything one call of [createOrder] depends on besides its input and
    the database contents: [ctx.session.userId] as the request carries it
    (a string, or [null] or [undefined]), the id the database generates
    for the new row, which numbers the column type of the three monetary
    fields of [Order] admits (the Prisma schema is not part of the
    source), whether each database call fails, and the answer of the
    payment gateway. *)
Record World := mkWorld {
  ctx_session_userId : option string;
  product_findMany_fault : option string;
  order_create_id : string;
  money_column : number → bool;
  order_create_fault : option string;
  orderItem_createMany_fault : option string;
  createQRIS : number → string → string + PaymentRequest;
  order_update_fault : option string;
}.

(** *** Computations: database state, exceptions
    A thrown exception keeps the database as it is at that point: no
    call of the source opens a transaction. *)

Definition M (A : Type) : Type := Db → Db * (Thrown + A).

Definition ret {A} (a : A) : M A := λ db, (db, inr a).

Definition throw {A} (e : Thrown) : M A := λ db, (db, inl e).

Definition bind {A B} (m : M A) (k : A → M B) : M B :=
  λ db,
    match m db with
    | (db', inr a) => k a db'
    | (db', inl e) => (db', inl e)
    end.

Notation "'let*' x ':=' m 'in' k" := (bind m (λ x, k))
  (at level 10, x name, m at level 100, k at level 200).

Definition faulty (fault : option string) : M unit :=
  match fault with
  | Some message => throw (PrismaError message)
  | None => ret tt
  end.

(** [forEach] with a callback that may throw, threading the
    accumulator. *)
Fixpoint foldM {A B} (f : B → A → M B) (acc : B) (l : list A) : M B :=
  match l with
  | [] => ret acc
  | x :: l' => let* acc' := f acc x in foldM f acc' l'
  end.

(** [map] with a callback that may throw. *)
Fixpoint mapM {A B} (f : A → M B) (l : list A) : M (list B) :=
  match l with
  | [] => ret []
  | x :: l' => let* y := f x in let* ys := mapM f l' in ret (y :: ys)
  end.

(** *** Input parsing (lines 31-38) *)

(** [z.number().min(1)] on one quantity; [z.number()] refuses [NaN]. *)
Definition check_quantity (q : number) : option ZodIssueCode :=
  if is_nan q then Some invalid_type
  else if (q <? 1)%float then Some too_small
  else None.

Fixpoint issues_from (index : nat) (l : list RawItem) : list ZodIssue :=
  match l with
  | [] => []
  | raw :: l' =>
      match check_quantity (raw_quantity raw) with
      | Some code => mkZodIssue index code :: issues_from (S index) l'
      | None => issues_from (S index) l'
      end
  end.

(** [z.object] keeps the keys of the schema and drops the others. *)
Definition strip (raw : RawItem) : ClientItem :=
  {| item_productId := raw_productId raw;
     item_quantity := raw_quantity raw |}.

Definition parse_input (input : list RawItem) : M (list ClientItem) :=
  match issues_from 0 input with
  | [] => ret (strip <$> input)
  | issues => throw (ZodError issues)
  end.

(** [!userId] for a [userId] of type [string | null | undefined]:
    JavaScript's [!] is true of [null], of [undefined] and of the empty
    string. *)
Definition falsy (userId : option string) : bool :=
  match userId with
  | Some uid => String.eqb uid ""
  | None => true
  end.

(** [protectedProcedure] (trpc.ts):
    [if (!ctx.session.userId) throw new TRPCError({ code: "UNAUTHORIZED" })]. *)
Definition protectedProcedure (w : World) : M unit :=
  if falsy (ctx_session_userId w) then throw UNAUTHORIZED else ret tt.

(** The user id of the session of a request that [protectedProcedure]
    lets through: none when [ctx.session.userId] is falsy. *)
Definition session_userId (w : World) : option string :=
  if falsy (ctx_session_userId w) then None else ctx_session_userId w.

(** *** Database calls *)

(** [db.product.findMany({ where: { id: { in: ids } } })] *)
Definition product_findMany (w : World) (ids : list string) : M (list Product) :=
  let* _ := faulty (product_findMany_fault w) in
  λ db, (db, inr (filter (λ p, product_id p ∈ ids) (products db))).

(** The row with a given id, as [findUnique({ where: { id } })] reads
    it. *)
Definition stored_order (id : string) (db : Db) : option Order :=
  find (λ o, String.eqb (order_id o) id) (orders db).

(** The row [db.order.create] writes: the id and the status take their
    defaults, the external ids are absent. *)
Definition new_order (id : string) (grandTotal subtotal tax : number) : Order :=
  {| order_id := id;
     order_grandTotal := grandTotal;
     order_subtotal := subtotal;
     order_tax := tax;
     order_status := AWAITING_PAYMENT;
     order_externalTransactionId := None;
     order_paymentMethodId := None |}.

Definition insert_order (row : Order) (db : Db) : Db :=
  {| products := products db;
     orders := orders db ++ [row];
     orderItems := orderItems db |}.

(** [db.order.create({ data: { grandTotal, subtotal, tax } })]: the
    client refuses values the column type does not admit, the database
    refuses a second row with the same id. *)
Definition order_create (w : World) (grandTotal subtotal tax : number) : M Order :=
  if money_column w grandTotal && money_column w subtotal && money_column w tax
  then
    let* _ := faulty (order_create_fault w) in
    λ db,
      match stored_order (order_create_id w) db with
      | Some _ => (db, inl (PrismaError "Unique constraint failed on the fields: (`id`)"))
      | None =>
          let row := new_order (order_create_id w) grandTotal subtotal tax in
          (insert_order row db, inr row)
      end
  else throw (PrismaError "Invalid value provided").

Definition insert_items (data : list OrderItem) (db : Db) : Db :=
  {| products := products db;
     orders := orders db;
     orderItems := orderItems db ++ data |}.

(** [db.orderItem.createMany({ data })]: one statement, all rows or
    none. *)
Definition orderItem_createMany (w : World) (data : list OrderItem) : M BatchPayload :=
  let* _ := faulty (orderItem_createMany_fault w) in
  λ db, (insert_items data db, inr {| count := length data |}).

Definition set_payment_ids (externalTransactionId paymentMethodId : string)
    (o : Order) : Order :=
  {| order_id := order_id o;
     order_grandTotal := order_grandTotal o;
     order_subtotal := order_subtotal o;
     order_tax := order_tax o;
     order_status := order_status o;
     order_externalTransactionId := Some externalTransactionId;
     order_paymentMethodId := Some paymentMethodId |}.

Definition update_order (id externalTransactionId paymentMethodId : string)
    (db : Db) : Db :=
  {| products := products db;
     orders :=
       (λ o, if String.eqb (order_id o) id
             then set_payment_ids externalTransactionId paymentMethodId o
             else o) <$> orders db;
     orderItems := orderItems db |}.

(** [db.order.update({ where: { id }, data: { externalTransactionId,
    paymentMethodId } })] *)
Definition order_update (w : World) (id externalTransactionId paymentMethodId : string)
    : M unit :=
  let* _ := faulty (order_update_fault w) in
  λ db,
    match stored_order id db with
    | Some _ => (update_order id externalTransactionId paymentMethodId db, inr tt)
    | None => (db, inl (PrismaError "Record to update not found."))
    end.

(** [await createQRIS({ amount, orderId })] *)
Definition call_createQRIS (w : World) (amount : number) (orderId : string)
    : M PaymentRequest :=
  match createQRIS w amount orderId with
  | inl message => throw (XenditError message)
  | inr paymentRequest => ret paymentRequest
  end.

(** *** The body of the mutation *)

(** [orderItems.find((item) => item.productId === product.id)!.quantity] *)
Definition productQuantity (orderItems : list ClientItem) (product : Product)
    : M number :=
  match find (λ item, String.eqb (item_productId item) (product_id product)) orderItems with
  | Some item => ret (item_quantity item)
  | None => throw (TypeError "Cannot read properties of undefined (reading 'quantity')")
  end.

Record Totals := mkTotals {
  subtotal : number;
  tax : number;
  grandTotal : number;
}.

(** Lines 73-89. *)
Definition priceOrder (products : list Product) (orderItems : list ClientItem)
    : M Totals :=
  let* subtotal := foldM (λ subtotal product,
                      let* productQuantity := productQuantity orderItems product in
                      let totalPrice := (product_price product * productQuantity)%float in
                      ret (subtotal + totalPrice)%float)
                   0%float products in
  let tax := (subtotal * Js.tenth)%float in
  let grandTotal := (subtotal + tax)%float in
  ret {| subtotal := subtotal; tax := tax; grandTotal := grandTotal |}.

(** [paymentRequest.paymentMethod.qrCode?.channelProperties!.qrString!] *)
Definition read_qrString (paymentRequest : PaymentRequest) : M (option string) :=
  match pm_qrCode (pr_paymentMethod paymentRequest) with
  | None => ret None
  | Some qrCode =>
      match qr_channelProperties qrCode with
      | None => throw (TypeError "Cannot read properties of undefined (reading 'qrString')")
      | Some channelProperties => ret (cp_qrString channelProperties)
      end
  end.

Definition createOrder (w : World) (input : list RawItem) : M Response :=
  let* _ := protectedProcedure w in
  let* orderItems := parse_input input in
  let* products := product_findMany w (item_productId <$> orderItems) in
  let* totals := priceOrder products orderItems in
  let* order := order_create w (grandTotal totals) (subtotal totals) (tax totals) in
  let* data := mapM (λ product,
                 let* productQuantity := productQuantity orderItems product in
                 ret {| oi_orderId := order_id order;
                        oi_price := product_price product;
                        oi_productId := product_id product;
                        oi_quantity := productQuantity |})
              products in
  let* newOrderItems := orderItem_createMany w data in
  let* paymentRequest := call_createQRIS w (grandTotal totals) (order_id order) in
  let* _ := order_update w (order_id order) (pr_id paymentRequest)
        (pm_id (pr_paymentMethod paymentRequest)) in
  let* qrString := read_qrString paymentRequest in
  ret {| order := order; newOrderItems := newOrderItems; qrString := qrString |}.

(** *** The pricing rule in the specification's words (section 4.2)

    "For each authoritative product found, its quantity is looked up
    from the client list by productId";
    "subtotal = Σ (authoritative_price_i × client_quantity_i)";
    "tax = subtotal × 0.10"; "grandTotal = subtotal + tax". *)

Definition client_quantity (orderItems : list ClientItem) (id : string)
    : option number :=
  item_quantity <$> find (λ item, String.eqb (item_productId item) id) orderItems.

(** The catalog products the client list names, each with the quantity
    the client asked for. *)
Definition matched_lines (catalog : list Product) (orderItems : list ClientItem)
    : list (Product * number) :=
  omap (λ p, q ← client_quantity orderItems (product_id p); Some (p, q)) catalog.

(** Σ, adding from left to right. *)
Definition js_sum (l : list number) : number := fold_left PrimFloat.add l 0%float.

Definition spec_subtotal (catalog : list Product) (orderItems : list ClientItem)
    : number :=
  js_sum ((λ line, (product_price line.1 * line.2)%float)
            <$> matched_lines catalog orderItems).

Definition spec_totals (catalog : list Product) (orderItems : list ClientItem)
    : Totals :=
  let subtotal := spec_subtotal catalog orderItems in
  let tax := (subtotal * Js.tenth)%float in
  {| subtotal := subtotal; tax := tax; grandTotal := (subtotal + tax)%float |}.

(** The [OrderItem] rows of an order: one per matched line. *)
Definition item_rows (orderId : string) (lines : list (Product * number))
    : list OrderItem :=
  (λ line, {| oi_orderId := orderId;
              oi_price := product_price line.1;
              oi_productId := product_id line.1;
              oi_quantity := line.2 |}) <$> lines.

(** The order row and the item rows one call writes, in terms of the
    catalog and the request. *)
Definition created_order (w : World) (input : list RawItem) (db : Db) : Order :=
  let totals := spec_totals (products db) (strip <$> input) in
  new_order (order_create_id w) (grandTotal totals) (subtotal totals) (tax totals).

(** The column type admits the three totals of that row. *)
Definition totals_admitted (w : World) (input : list RawItem) (db : Db) : bool :=
  let order := created_order w input db in
  money_column w (order_grandTotal order)
  && money_column w (order_subtotal order)
  && money_column w (order_tax order).

Definition created_items (w : World) (input : list RawItem) (db : Db)
    : list OrderItem :=
  item_rows (order_create_id w) (matched_lines (products db) (strip <$> input)).

(** A matched line whose price and quantity are the integers [z.1] and
    [z.2]. *)
Definition integer_line (line : Product * number) (z : Z * Z) : Prop :=
  (0 ≤ z.1 < 2 ^ 53)%Z ∧ (0 ≤ z.2 < 2 ^ 53)%Z
  ∧ product_price line.1 = Js.of_Z z.1 ∧ line.2 = Js.of_Z z.2.

(** Σ price × quantity over integer lines, in the integers. *)
Definition exact_subtotal (zs : list (Z * Z)) : Z :=
  foldr (λ z acc, (z.1 * z.2 + acc)%Z) 0%Z zs.

(** Any later write to the [Product] table. *)
Definition with_products (catalog : list Product) (db : Db) : Db :=
  {| products := catalog; orders := orders db; orderItems := orderItems db |}.

End Order.

(** ** Concrete situations used in the examples *)

Module Scenario.
Import Cart Order.

(** A product to put in the cart. *)
Definition kopi : AddToCartItem := mkAddToCartItem "A" "Kopi" 10000 "/a.png".

(** A shop with two products and no orders yet. *)
Definition shop : Db :=
  {| products := [mkProduct "p1" "Kopi" 10000 "/p1.png" "c1";
                  mkProduct "p2" "Teh" 5000 "/p2.png" "c1"];
     orders := [];
     orderItems := [] |}.

(** A shop whose prices are not multiples of ten. *)
Definition odd_shop : Db :=
  {| products := [mkProduct "p3" "Roti" 1005 "/p3.png" "c1";
                  mkProduct "p4" "Susu" 1003 "/p4.png" "c1"];
     orders := [];
     orderItems := [] |}.

Definition qris : PaymentRequest :=
  mkPaymentRequest "pr-1"
    (mkPaymentMethod "pm-1" (Some (mkQrCode (Some (mkChannelProperties (Some "00020101")))))).

(** A 32-bit integer column. *)
Definition int_column (x : number) : bool :=
  Js.isInteger x && (-2147483648 <=? x)%float && (x <=? 2147483647)%float.

(** A double-precision column. *)
Definition float_column (x : number) : bool := negb (is_nan x).

(** Everything works; the database names the new order [id]. *)
Definition world_ok (id : string) : World :=
  {| ctx_session_userId := Some "user_1";
     product_findMany_fault := None;
     order_create_id := id;
     money_column := int_column;
     order_create_fault := None;
     orderItem_createMany_fault := None;
     createQRIS := λ _ _, inr qris;
     order_update_fault := None |}.

(** The [OrderItem] insert fails. *)
Definition world_item_failure : World :=
  {| ctx_session_userId := Some "user_1";
     product_findMany_fault := None;
     order_create_id := "o-1";
     money_column := int_column;
     order_create_fault := None;
     orderItem_createMany_fault := Some "Connection lost";
     createQRIS := λ _ _, inr qris;
     order_update_fault := None |}.

(** The gateway cannot be reached. *)
Definition world_gateway_down (id : string) : World :=
  {| ctx_session_userId := Some "user_1";
     product_findMany_fault := None;
     order_create_id := id;
     money_column := int_column;
     order_create_fault := None;
     orderItem_createMany_fault := None;
     createQRIS := λ _ _, inl "connect ECONNREFUSED";
     order_update_fault := None |}.

(** Everything works, and the monetary columns are double precision. *)
Definition world_float_columns (id : string) : World :=
  {| ctx_session_userId := Some "user_1";
     product_findMany_fault := None;
     order_create_id := id;
     money_column := float_column;
     order_create_fault := None;
     orderItem_createMany_fault := None;
     createQRIS := λ _ _, inr qris;
     order_update_fault := None |}.

(** Two of the first product, one of the second. *)
Definition two_kopi_one_teh : list RawItem :=
  [mkRawItem "p1" 2 []; mkRawItem "p2" 1 []].

End Scenario.

(** ** Notions used to state further properties *)

Module CartSpec.
Import Cart.

(** How many times a product was handed to [addToCart]. *)
Definition times_added (pid : string) (newItems : list AddToCartItem) : nat :=
  length (filter (λ newItem, new_productId newItem = pid) newItems).

(** The first item with a given product id that was handed to
    [addToCart]. *)
Definition first_added (pid : string) (newItems : list AddToCartItem)
    : option AddToCartItem :=
  find (λ newItem, String.eqb (new_productId newItem) pid) newItems.

(** The product ids of a sequence of items, each once, in the order in
    which they first occur. *)
Definition first_ids (newItems : list AddToCartItem) : list string :=
  reverse (remove_dups (reverse (new_productId <$> newItems))).

(** What the cart shows after a sequence of [addToCart] calls, line by
    line. *)
Definition describes newItems (c : CartItem) : Prop :=
  ∃ first,
    first_added (productId c) newItems = Some first
    ∧ name c = new_name first
    ∧ price c = new_price first
    ∧ imageUrl c = new_imageUrl first
    ∧ quantity c = Js.of_Z (Z.of_nat (times_added (productId c) newItems)).

End CartSpec.

Module OrderSpec.
Import Order.

(** The request without the lines whose product id already occurred in an
    earlier line ([seen] holds the ids met so far). *)
Fixpoint first_lines (seen : list string) (input : list RawItem) : list RawItem :=
  match input with
  | [] => []
  | raw :: input' =>
      if decide (raw_productId raw ∈ seen) then first_lines seen input'
      else raw :: first_lines (raw_productId raw :: seen) input'
  end.

(** Every [OrderItem] row belongs to a stored order and names a stored
    product. *)
Definition items_reference_rows (db : Db) : Prop :=
  ∀ row, row ∈ orderItems db →
    is_Some (stored_order (oi_orderId row) db)
    ∧ oi_productId row ∈ product_id <$> products db.

(** The tax and the grand total of a row are the ones line 88 and 89
    compute from its subtotal. *)
Definition totals_consistent (o : Order) : Prop :=
  order_tax o = (order_subtotal o * Js.tenth)%float
  ∧ order_grandTotal o = (order_subtotal o + order_tax o)%float.



End OrderSpec.

Module FurtherScenario.
Import Cart Order Scenario.

(** The reconciliation write fails. *)
Definition world_update_failure : World :=
  {| ctx_session_userId := Some "user_1";
     product_findMany_fault := None;
     order_create_id := "o-1";
     money_column := int_column;
     order_create_fault := None;
     orderItem_createMany_fault := None;
     createQRIS := λ _ _, inr qris;
     order_update_fault := Some "Connection lost" |}.

(** A gateway answer whose [qrCode] has no [channelProperties]. *)
Definition qris_without_channel : PaymentRequest :=
  mkPaymentRequest "pr-1" (mkPaymentMethod "pm-1" (Some (mkQrCode None))).

Definition world_qris_without_channel : World :=
  {| ctx_session_userId := Some "user_1";
     product_findMany_fault := None;
     order_create_id := "o-1";
     money_column := int_column;
     order_create_fault := None;
     orderItem_createMany_fault := None;
     createQRIS := λ _ _, inr qris_without_channel;
     order_update_fault := None |}.

(** No session. *)
Definition world_anonymous : World :=
  {| ctx_session_userId := None;
     product_findMany_fault := None;
     order_create_id := "o-1";
     money_column := int_column;
     order_create_fault := None;
     orderItem_createMany_fault := None;
     createQRIS := λ _ _, inr qris;
     order_update_fault := None |}.

(** Two products, the first added twice. *)
Definition teh : AddToCartItem := mkAddToCartItem "B" "Teh" 5000 "/b.png".
Definition kopi_teh_kopi : list AddToCartItem := [kopi; teh; kopi].

End FurtherScenario.

(** * Properties *)

(** ** Binary64 arithmetic on integers *)

Section Binary64.
Local Open Scope Z_scope.

(** [digits2_pos] counts binary digits. *)
Lemma digits2_pos_size p : digits2_pos p = Pos.size p.
Proof. induction p; simpl; congruence. Qed.

Lemma Zdigits2_log2 p : Zdigits2 (Zpos p) = Z.log2 (Zpos p) + 1.
Proof.
  simpl. rewrite digits2_pos_size.
  destruct p; simpl; lia.
Qed.

Lemma Zdigits2_bounds p :
  2 ^ (Zdigits2 (Zpos p) - 1) <= Zpos p < 2 ^ Zdigits2 (Zpos p).
Proof.
  rewrite Zdigits2_log2.
  replace (Z.log2 (Z.pos p) + 1 - 1) with (Z.log2 (Z.pos p)) by lia.
  apply Z.log2_spec. lia.
Qed.

Lemma Zdigits2_unique z d :
  0 < d -> 2 ^ (d - 1) <= z < 2 ^ d -> Zdigits2 z = d.
Proof.
  intros Hd Hz.
  assert (0 < z) as Hpos by (pose proof (Z.pow_pos_nonneg 2 (d - 1)); lia).
  destruct z as [|p|p]; try lia.
  rewrite Zdigits2_log2.
  rewrite (Z.log2_unique (Zpos p) (d - 1)); [lia | lia |].
  replace (Z.succ (d - 1)) with d by lia. done.
Qed.

Lemma Zdigits2_pos p : 0 < Zdigits2 (Zpos p).
Proof. simpl. lia. Qed.

(** Scaling by a power of two adds that many digits. *)
Lemma Zdigits2_shift p k :
  0 <= k -> Zdigits2 (Zpos p * 2 ^ k) = Zdigits2 (Zpos p) + k.
Proof.
  intros Hk. pose proof (Zdigits2_bounds p) as [Hlo Hhi].
  pose proof (Zdigits2_pos p) as Hd.
  apply Zdigits2_unique; [lia|].
  replace (Zdigits2 (Z.pos p) + k - 1) with (Zdigits2 (Z.pos p) - 1 + k) by lia.
  rewrite !Z.pow_add_r by lia.
  pose proof (Z.pow_pos_nonneg 2 k). nia.
Qed.


Lemma fexp_normal e : -1021 <= e -> fexp prec emax e = e - 53.
Proof. unfold fexp, emin, prec, emax. lia. Qed.

(** One shift step on a non-negative mantissa. *)
Lemma shr_1_nonneg m r s :
  0 <= m ->
  shr_1 {| shr_m := m; shr_r := r; shr_s := s |}
  = {| shr_m := m / 2; shr_r := Z.odd m; shr_s := r || s |}.
Proof.
  intros Hm. rewrite <- Z.div2_div.
  destruct m as [|[p|p|]|p]; try lia; reflexivity.
Qed.

Lemma iter_pos_nat {A} (f : A -> A) p x :
  SpecFloat.iter_pos f p x = Nat.iter (Pos.to_nat p) f x.
Proof.
  revert x. induction p as [p IH|p IH|]; intros x; cbn [SpecFloat.iter_pos].
  - rewrite !IH, Pos2Nat.inj_xI.
    replace (S (2 * Pos.to_nat p)) with (Pos.to_nat p + (Pos.to_nat p + 1))%nat by lia.
    by rewrite !Nat.iter_add.
  - rewrite !IH, Pos2Nat.inj_xO.
    replace (2 * Pos.to_nat p)%nat with (Pos.to_nat p + Pos.to_nat p)%nat by lia.
    by rewrite Nat.iter_add.
  - done.
Qed.

(** Shifting right [j] times divides by [2^j]; the round bit is the last
    bit shifted out, and round and sticky bits together tell whether
    anything non-zero was shifted out. *)
Lemma shr_iter m j :
  0 <= m ->
  let R := Nat.iter j shr_1 {| shr_m := m; shr_r := false; shr_s := false |} in
  shr_m R = m / 2 ^ Z.of_nat j
  /\ shr_r R || shr_s R = negb (m mod 2 ^ Z.of_nat j =? 0)
  /\ (1 <= Z.of_nat j -> shr_r R = Z.odd (m / 2 ^ (Z.of_nat j - 1))).
Proof.
  intros Hm. induction j as [|j IH].
  - simpl. rewrite Z.div_1_r, Z.mod_1_r. split; [done|]. split; [done|lia].
  - rewrite Nat.iter_succ. cbv zeta in IH.
    destruct (Nat.iter j shr_1 _) as [mj r s]. simpl in IH.
    destruct IH as (-> & Hrs & _).
    assert (0 < 2 ^ Z.of_nat j) as Hpow by (apply Z.pow_pos_nonneg; lia).
    assert (0 <= m / 2 ^ Z.of_nat j) as Hq by (apply Z.div_pos; lia).
    rewrite shr_1_nonneg by done. cbv zeta. simpl shr_m. simpl shr_r. simpl shr_s.
    replace (Z.of_nat (S j)) with (Z.of_nat j + 1) by lia.
    rewrite Z.pow_add_r, Z.pow_1_r by lia.
    replace (Z.of_nat j + 1 - 1) with (Z.of_nat j) by lia.
    split; [by rewrite Z.div_div by lia|]. split; [|done].
    rewrite Hrs, Z.rem_mul_r by lia.
    pose proof (Zmod_odd (m / 2 ^ Z.of_nat j)) as Hodd.
    pose proof (Z.mod_pos_bound m (2 ^ Z.of_nat j) Hpow) as Hrem.
    destruct (Z.odd (m / 2 ^ Z.of_nat j)); rewrite Hodd.
    + simpl. symmetry. apply negb_true_iff, Z.eqb_neq. lia.
    + simpl. f_equal. by rewrite Z.mul_0_r, Z.add_0_r.
Qed.

(** The shift of [shr] when the part shifted out is below half a unit. *)
Lemma shr_below_half q k rem e :
  0 < k -> 0 <= q -> 0 <= rem -> 2 * rem < 2 ^ k ->
  shr {| shr_m := q * 2 ^ k + rem; shr_r := false; shr_s := false |} e k
  = ({| shr_m := q; shr_r := false; shr_s := negb (rem =? 0) |}, e + k).
Proof.
  intros Hk Hq Hrem Hhalf.
  destruct k as [|k|k]; try lia. unfold shr. f_equal.
  rewrite iter_pos_nat.
  assert (0 < 2 ^ Z.pos k) as Hpow by (apply Z.pow_pos_nonneg; lia).
  assert (0 < 2 ^ (Z.pos k - 1)) as Hpow' by (apply Z.pow_pos_nonneg; lia).
  assert (2 ^ Z.pos k = 2 ^ (Z.pos k - 1) * 2) as Hsplit.
  { rewrite <- (Z.pow_1_r 2) at 3. rewrite <- Z.pow_add_r by lia. f_equal. lia. }
  destruct (shr_iter (q * 2 ^ Z.pos k + rem) (Pos.to_nat k)) as (Hm & Hrs & Hr); [nia|].
  rewrite positive_nat_Z in *.
  destruct (Nat.iter _ shr_1 _) as [m r s]. simpl in *.
  assert (m = q) as ->.
  { rewrite Hm. symmetry. apply (Z.div_unique_pos _ _ q rem); lia. }
  assert (r = false) as ->.
  { rewrite Hr by lia.
    rewrite <- (Z.div_unique_pos (q * 2 ^ Z.pos k + rem) (2 ^ (Z.pos k - 1)) (2 * q) rem)
      by lia.
    by rewrite Z.odd_mul. }
  simpl in Hrs. rewrite Hrs. do 3 f_equal.
  symmetry. apply (Z.mod_unique_pos _ _ q rem); lia.
Qed.

(** Rounding a mantissa that is [q] shifted left by [k], plus less than
    half a unit, gives [q] when [q] has the full 53 digits. *)
Lemma binary_round_aux_below_half sx (q : positive) k rem e :
  Zdigits2 (Zpos q) = 53 ->
  0 <= k -> 0 <= rem -> 2 * rem < 2 ^ k ->
  -1074 <= e + k <= 971 ->
  binary_round_aux prec emax sx (Zpos q * 2 ^ k + rem) e loc_Exact
  = S754_finite sx q (e + k).
Proof.
  intros Hq Hk Hrem Hhalf He.
  assert (0 < 2 ^ k) as Hpow by (apply Z.pow_pos_nonneg; lia).
  assert (Zdigits2 (Zpos q * 2 ^ k + rem) = 53 + k) as Hdig.
  { pose proof (Zdigits2_bounds q) as Hb. rewrite Hq in Hb.
    apply Zdigits2_unique; [lia|].
    replace (53 + k - 1) with (53 - 1 + k) by lia.
    rewrite !Z.pow_add_r by lia. nia. }
  unfold binary_round_aux, shr_fexp. rewrite Hdig.
  rewrite fexp_normal by lia.
  replace (53 + k + e - 53 - e) with k by lia.
  change (shr_record_of_loc (Z.pos q * 2 ^ k + rem) loc_Exact)
    with {| shr_m := Zpos q * 2 ^ k + rem; shr_r := false; shr_s := false |}.
  assert (shr {| shr_m := Zpos q * 2 ^ k + rem; shr_r := false; shr_s := false |} e k
          = ({| shr_m := Zpos q; shr_r := false; shr_s := negb (rem =? 0) |}, e + k))
    as ->.
  { destruct (Z.eq_dec k 0) as [->|Hk0].
    - simpl in Hhalf. assert (rem = 0) as -> by lia.
      simpl. do 2 f_equal; lia.
    - apply shr_below_half; lia. }
  cbv beta iota. cbn [shr_m].
  assert (round_nearest_even (Zpos q)
            (loc_of_shr_record
               {| shr_m := Zpos q; shr_r := false; shr_s := negb (rem =? 0) |})
          = Zpos q) as ->.
  { simpl. by destruct (negb (rem =? 0)). }
  rewrite Hq, fexp_normal by lia.
  replace (53 + (e + k) - 53 - (e + k)) with 0 by lia.
  cbn. unfold emax, prec.
  destruct (Z.leb_spec (e + k) (1024 - 53)); [done | lia].
Qed.


Lemma Pos_iter_xO p k : Zpos (Pos.iter xO p k) = Zpos p * 2 ^ Zpos k.
Proof.
  induction k as [|k IH] using Pos.peano_ind.
  - simpl. lia.
  - rewrite Pos.iter_succ, Pos2Z.inj_xO, IH, Pos2Z.inj_succ, Z.pow_succ_r by lia. lia.
Qed.

(** Aligning a mantissa to a smaller exponent multiplies it by the
    matching power of two. *)
Lemma shl_align_spec mx ex ex' :
  ex' <= ex ->
  exists m', shl_align mx ex ex' = (m', ex') /\ Zpos m' = Zpos mx * 2 ^ (ex - ex').
Proof.
  intros Hle. unfold shl_align.
  destruct (ex' - ex) as [|d|d] eqn:Hd; try lia.
  - assert (ex' = ex) as -> by lia. exists mx.
    rewrite Z.sub_diag. split; [done | simpl; lia].
  - exists (Pos.iter xO mx d). split; [done|].
    rewrite Pos_iter_xO. do 2 f_equal. lia.
Qed.

Lemma Zdigits2_spec z :
  0 < z -> 2 ^ (Zdigits2 z - 1) <= z < 2 ^ Zdigits2 z /\ 1 <= Zdigits2 z.
Proof.
  intros Hz. destruct z as [|p|p]; try lia.
  split; [apply Zdigits2_bounds | pose proof (Zdigits2_pos p); lia].
Qed.

Lemma Zdigits2_le z e : 0 < z < 2 ^ e -> Zdigits2 z <= e.
Proof.
  intros [Hpos Hlt]. destruct (Zdigits2_spec z Hpos) as [[Hlo _] Hd].
  destruct (Z.le_gt_cases (Zdigits2 z) e) as [|Hgt]; [done|].
  assert (2 ^ e <= 2 ^ (Zdigits2 z - 1)); [|lia].
  destruct (Z.le_gt_cases 0 e); [apply Z.pow_le_mono_r; lia|].
  rewrite (Z.pow_neg_r 2 e) by lia. apply Z.pow_nonneg. lia.
Qed.

Lemma Zdigits2_mono a b : 0 < a <= b -> Zdigits2 a <= Zdigits2 b.
Proof.
  intros [Ha Hab]. apply Zdigits2_le.
  pose proof (Zdigits2_spec b). lia.
Qed.

Lemma Zdigits2_le_53 z : 0 < z < 2 ^ 53 -> 1 <= Zdigits2 z <= 53.
Proof.
  intros Hz. split; [apply Zdigits2_spec; lia | by apply Zdigits2_le].
Qed.

(** The binary64 value of a positive integer below [2^53]: the integer
    itself, its mantissa scaled to 53 digits. *)
Lemma binary_normalize_integer z :
  0 < z < 2 ^ 53 ->
  exists m : positive,
    binary_normalize prec emax z 0 false = S754_finite false m (Zdigits2 z - 53)
    /\ Zpos m = z * 2 ^ (53 - Zdigits2 z)
    /\ Zdigits2 (Zpos m) = 53.
Proof.
  intros Hz. pose proof (Zdigits2_le_53 z Hz) as Hd.
  destruct z as [|p|p]; try lia.
  unfold binary_normalize, binary_round.
  change (Z.pos (digits2_pos p)) with (Zdigits2 (Zpos p)).
  rewrite Z.add_0_r, fexp_normal by lia.
  destruct (shl_align_spec p 0 (Zdigits2 (Zpos p) - 53)) as (m & -> & Hm); [lia|].
  replace (0 - (Zdigits2 (Z.pos p) - 53)) with (53 - Zdigits2 (Z.pos p)) in Hm by lia.
  assert (Zdigits2 (Zpos m) = 53) as Hdig.
  { rewrite Hm, Zdigits2_shift by lia. lia. }
  exists m. split; [|done].
  replace (Zpos m) with (Zpos m * 2 ^ 0 + 0) by lia.
  rewrite binary_round_aux_below_half by (done || lia).
  f_equal. lia.
Qed.

Lemma valid_binary_integer (m : positive) e :
  Zdigits2 (Zpos m) = 53 -> -52 <= e <= 0 ->
  valid_binary (S754_finite false m e) = true.
Proof.
  intros Hm He.
  unfold valid_binary, SpecFloat.valid_binary, bounded, canonical_mantissa.
  change (Z.pos (digits2_pos m)) with (Zdigits2 (Zpos m)).
  rewrite Hm, fexp_normal by lia.
  apply andb_true_iff. split; [apply Z.eqb_eq; lia | apply Z.leb_le].
  unfold emax, prec. lia.
Qed.


Lemma Prim2SF_of_Z z :
  0 <= z < 2 ^ 53 ->
  Prim2SF (Js.of_Z z) = binary_normalize prec emax z 0 false.
Proof.
  intros Hz. unfold Js.of_Z. apply Prim2SF_SF2Prim.
  destruct (Z.eq_dec z 0) as [->|Hne]; [done|].
  destruct (binary_normalize_integer z) as (m & -> & _ & Hm); [lia|].
  apply valid_binary_integer; [done|].
  pose proof (Zdigits2_le_53 z). lia.
Qed.

(** Multiplying a multiple of ten by the binary64 [0.1] gives the exact
    tenth: [0.1] is [(2^56 + 4) / (10 * 2^56)], and the excess
    [n * 2^-54] stays below half a unit in the last place of [n]. *)
Lemma mul_tenth_exact n :
  0 <= n -> 10 * n < 2 ^ 53 ->
  (Js.of_Z (10 * n) * Js.tenth)%float = Js.of_Z n.
Proof.
  intros Hn Hbound. apply Prim2SF_inj.
  rewrite mul_spec, !Prim2SF_of_Z by lia.
  change (Prim2SF Js.tenth) with (S754_finite false 7205759403792794 (-56)).
  destruct (Z.eq_dec n 0) as [->|Hne]; [done|].
  destruct (binary_normalize_integer (10 * n)) as (m10 & -> & Hm10 & _); [lia|].
  destruct (binary_normalize_integer n) as (m & -> & Hm & Hdig); [lia|].
  pose proof (Zdigits2_le_53 n) as Hd. pose proof (Zdigits2_le_53 (10 * n)) as Hd10.
  assert (n < 2 ^ Zdigits2 n) as Hnd by (apply Zdigits2_spec; lia).
  assert (Zdigits2 n <= Zdigits2 (10 * n)) as Hdd by (apply Zdigits2_mono; lia).
  assert (Zdigits2 (10 * n) <= Zdigits2 n + 4) as Hdd'.
  { apply Zdigits2_le. rewrite Z.pow_add_r by lia. change (2 ^ 4) with 16. lia. }
  set (d := Zdigits2 n) in *. set (d10 := Zdigits2 (10 * n)) in *.
  unfold SF64mul, SFmul. simpl xorb.
  set (k := d + 56 - d10).
  assert (0 < 2 ^ (53 - d10)) as Hp1 by (apply Z.pow_pos_nonneg; lia).
  assert (0 < 2 ^ (53 - d)) as Hp2 by (apply Z.pow_pos_nonneg; lia).
  assert (2 ^ (53 - d) * 2 ^ k = 2 ^ (53 - d10) * 2 ^ 56) as Hpow.
  { rewrite <- !Z.pow_add_r by lia. f_equal. lia. }
  assert (2 ^ k = 2 ^ (53 - d10) * 2 ^ (d + 3)) as Hk.
  { rewrite <- Z.pow_add_r by lia. f_equal. lia. }
  replace (Zpos (m10 * 7205759403792794))
    with (Zpos m * 2 ^ k + n * 2 ^ (53 - d10) * 4).
  2:{ rewrite Pos2Z.inj_mul, Hm10, Hm.
      replace (n * 2 ^ (53 - d) * 2 ^ k) with (n * (2 ^ (53 - d) * 2 ^ k)) by lia.
      rewrite Hpow. change (2 ^ 56) with 72057594037927936. lia. }
  rewrite binary_round_aux_below_half; [f_equal; lia|done|lia| |..].
  - assert (0 <= n * 2 ^ (53 - d10)) by nia. lia.
  - rewrite Hk, Z.pow_add_r by lia. change (2 ^ 3) with 8. nia.
  - lia.
Qed.

(** Adding two non-negative integers whose sum is below [2^53] is exact. *)
Lemma add_integers_exact a b :
  0 <= a -> 0 <= b -> a + b < 2 ^ 53 ->
  (Js.of_Z a + Js.of_Z b)%float = Js.of_Z (a + b).
Proof.
  intros Ha Hb Hbound. apply Prim2SF_inj.
  rewrite add_spec, !Prim2SF_of_Z by lia.
  destruct (Z.eq_dec a 0) as [->|Hane].
  { simpl. destruct b as [|p|p]; try lia; [done|].
    destruct (binary_normalize_integer (Zpos p)) as (m & Heq & _); [lia|].
    by rewrite Heq. }
  destruct (Z.eq_dec b 0) as [->|Hbne].
  { rewrite Z.add_0_r.
    destruct (binary_normalize_integer a) as (m & -> & _); [lia|]. done. }
  destruct (binary_normalize_integer a) as (ma & -> & Hma & _); [lia|].
  destruct (binary_normalize_integer b) as (mb & -> & Hmb & _); [lia|].
  destruct (binary_normalize_integer (a + b)) as (ms & -> & Hms & Hdig); [lia|].
  pose proof (Zdigits2_le_53 a) as Hda. pose proof (Zdigits2_le_53 b) as Hdb.
  pose proof (Zdigits2_le_53 (a + b)) as Hds.
  set (da := Zdigits2 a) in *. set (db := Zdigits2 b) in *.
  set (ds := Zdigits2 (a + b)) in *.
  assert (da <= ds) as Has by (apply Zdigits2_mono; lia).
  assert (db <= ds) as Hbs by (apply Zdigits2_mono; lia).
  unfold SF64add, SFadd. cbv zeta.
  set (ez := Z.min (da - 53) (db - 53)).
  destruct (shl_align_spec ma (da - 53) ez) as (ma' & -> & Hma'); [lia|].
  destruct (shl_align_spec mb (db - 53) ez) as (mb' & -> & Hmb'); [lia|].
  simpl fst. simpl cond_Zopp.
  rewrite Hma in Hma'. rewrite Hmb in Hmb'.
  assert (Zpos ma' = a * 2 ^ (- ez)) as Ha'.
  { rewrite Hma', <- Z.mul_assoc, <- Z.pow_add_r by lia. do 2 f_equal. lia. }
  assert (Zpos mb' = b * 2 ^ (- ez)) as Hb'.
  { rewrite Hmb', <- Z.mul_assoc, <- Z.pow_add_r by lia. do 2 f_equal. lia. }
  change (Zpos ma' + Zpos mb') with (Zpos (ma' + mb')).
  unfold binary_normalize, binary_round.
  change (Z.pos (digits2_pos (ma' + mb'))) with (Zdigits2 (Zpos (ma' + mb'))).
  assert (Zpos (ma' + mb') = Zpos ms * 2 ^ (ds - 53 - ez)) as Hsum.
  { rewrite Pos2Z.inj_add, Ha', Hb', Hms, <- Z.mul_assoc, <- Z.pow_add_r by lia.
    replace (53 - ds + (ds - 53 - ez)) with (- ez) by lia. lia. }
  assert (Zdigits2 (Zpos (ma' + mb')) = ds - ez) as Hdsum.
  { rewrite Hsum, Zdigits2_shift by lia. lia. }
  rewrite Hdsum, fexp_normal by lia.
  destruct (shl_align (ma' + mb') ez (ds - ez + ez - 53)) as [mz ez'] eqn:Hal.
  assert (mz = (ma' + mb')%positive /\ ez' = ez) as [-> ->].
  { unfold shl_align in Hal.
    destruct (ds - ez + ez - 53 - ez) eqn:E; try lia; by injection Hal. }
  rewrite Hsum.
  replace (Zpos ms * 2 ^ (ds - 53 - ez)) with (Zpos ms * 2 ^ (ds - 53 - ez) + 0) by lia.
  rewrite binary_round_aux_below_half; [f_equal; lia|done|lia|lia| |lia].
  assert (0 < 2 ^ (ds - 53 - ez)) by (apply Z.pow_pos_nonneg; lia). lia.
Qed.


(** Multiplying two non-negative integers whose product is below [2^53]
    is exact. *)
Lemma mul_integers_exact a b :
  0 <= a < 2 ^ 53 -> 0 <= b < 2 ^ 53 -> a * b < 2 ^ 53 ->
  (Js.of_Z a * Js.of_Z b)%float = Js.of_Z (a * b).
Proof.
  intros [Ha Ha53] [Hb Hb53] Hbound. apply Prim2SF_inj.
  destruct (Z.eq_dec a 0) as [->|Hane].
  { rewrite mul_spec, !Prim2SF_of_Z by lia. simpl.
    destruct b as [|p|p]; try lia; [done|].
    destruct (binary_normalize_integer (Zpos p)) as (m & Heq & _); [lia|].
    by rewrite Heq. }
  destruct (Z.eq_dec b 0) as [->|Hbne].
  { rewrite mul_spec, !Prim2SF_of_Z by lia. rewrite Z.mul_0_r.
    destruct (binary_normalize_integer a) as (m & -> & _); [lia|]. done. }
  rewrite mul_spec, !Prim2SF_of_Z by lia.
  destruct (binary_normalize_integer a) as (ma & -> & Hma & _); [lia|].
  destruct (binary_normalize_integer b) as (mb & -> & Hmb & _); [lia|].
  destruct (binary_normalize_integer (a * b)) as (mp & -> & Hmp & Hdig); [nia|].
  destruct (Zdigits2_spec a) as [[Hloa Hhia] Hda]; [lia|].
  destruct (Zdigits2_spec b) as [[Hlob Hhib] Hdb]; [lia|].
  destruct (Zdigits2_spec (a * b)) as [[Hlop Hhip] Hdp]; [nia|].
  pose proof (Zdigits2_le_53 a) as Hda53. pose proof (Zdigits2_le_53 b) as Hdb53.
  pose proof (Zdigits2_le_53 (a * b)) as Hdp53.
  set (da := Zdigits2 a) in *. set (db := Zdigits2 b) in *.
  set (dp := Zdigits2 (a * b)) in *.
  assert (da + db - 1 <= dp) as Hdp'.
  { destruct (Z.le_gt_cases (da + db - 1) dp) as [|Hgt]; [done|].
    assert (2 ^ dp <= 2 ^ (da - 1 + (db - 1))) as Hle by (apply Z.pow_le_mono_r; lia).
    rewrite Z.pow_add_r in Hle by lia. nia. }
  unfold SF64mul, SFmul. simpl xorb.
  replace (Zpos (ma * mb)) with (Zpos mp * 2 ^ (53 + dp - da - db) + 0).
  2:{ rewrite Pos2Z.inj_mul, Hma, Hmb, Hmp, Z.add_0_r.
      replace (a * b * 2 ^ (53 - dp) * 2 ^ (53 + dp - da - db))
        with (a * b * (2 ^ (53 - dp) * 2 ^ (53 + dp - da - db))) by lia.
      rewrite <- Z.pow_add_r by lia.
      replace (a * 2 ^ (53 - da) * (b * 2 ^ (53 - db)))
        with (a * b * (2 ^ (53 - da) * 2 ^ (53 - db))) by lia.
      rewrite <- Z.pow_add_r by lia. do 2 f_equal. lia. }
  rewrite binary_round_aux_below_half; [f_equal; lia|done|lia|lia| |lia].
  assert (0 < 2 ^ (53 + dp - da - db)) by (apply Z.pow_pos_nonneg; lia). lia.
Qed.

(** The value of a non-negative integer below [2^53] is a non-negative
    integer for [Number.isInteger] too. *)
Lemma of_Z_isInteger z :
  0 <= z < 2 ^ 53 ->
  Js.isInteger (Js.of_Z z) = true /\ Js.nonneg (Js.of_Z z) = true.
Proof.
  intros Hz. unfold Js.isInteger, Js.nonneg. rewrite Prim2SF_of_Z by done.
  destruct (Z.eq_dec z 0) as [->|Hne]; [done|].
  destruct (binary_normalize_integer z) as (m & -> & Hm & _); [lia|].
  pose proof (Zdigits2_le_53 z) as Hd. split; [|done].
  apply orb_true_iff. right. apply Z.eqb_eq.
  replace (- (Zdigits2 z - 53)) with (53 - Zdigits2 z) by lia.
  rewrite Hm. apply Z.mod_mul.
  assert (0 < 2 ^ (53 - Zdigits2 z)) by (apply Z.pow_pos_nonneg; lia). lia.
Qed.

End Binary64.

(** ** The cart *)

Section CartFacts.
Import Cart.
Implicit Types (h : Heap) (s : CartState) (l : list loc) (pid : string).
Implicit Types (ls : gmap loc CartItem).

Lemma allocated_cons ls r l :
  allocated ls (r :: l) ↔ is_Some (ls !! r) ∧ allocated ls l.
Proof.
  unfold allocated. split.
  - intros H. split; [apply H; left | intros r' Hr'; apply H; by right].
  - intros [H1 H2] r' Hr'. apply elem_of_cons in Hr' as [->|Hr']; auto.
Qed.

Lemma deref_all_cons ls r l :
  deref_all ls (r :: l) =
  match ls !! r with
  | Some c => c :: deref_all ls l
  | None => deref_all ls l
  end.
Proof. reflexivity. Qed.

Lemma deref_all_app ls l1 l2 :
  deref_all ls (l1 ++ l2) = deref_all ls l1 ++ deref_all ls l2.
Proof. apply omap_app. Qed.

Lemma deref_all_length ls l : allocated ls l → length (deref_all ls l) = length l.
Proof.
  induction l as [|r l IH]; [done|].
  intros [[c Hc] Hl]%allocated_cons.
  rewrite deref_all_cons, Hc. simpl. by rewrite IH.
Qed.

Lemma deref_all_lookup ls l i :
  allocated ls l → deref_all ls l !! i = l !! i ≫= (λ r, ls !! r).
Proof.
  revert i. induction l as [|r l IH]; intros i; [done|].
  intros [[c Hc] Hl]%allocated_cons.
  rewrite deref_all_cons, Hc.
  destruct i as [|i]; simpl; [by rewrite Hc | by apply IH].
Qed.

Lemma list_find_cons {A} (P : A → Prop) `{∀ x, Decision (P x)} x (k : list A) :
  list_find P (x :: k) =
  if decide (P x) then Some (0, x) else prod_map S id <$> list_find P k.
Proof. reflexivity. Qed.

(** On a cart without dangling slots, [findIndex] finds the first line
    of the view with the given product id. *)
Lemma findIndex_list_find h pid l :
  allocated (lines h) l →
  findIndex h pid l
  = fst <$> list_find (λ c, productId c = pid) (deref_all (lines h) l).
Proof.
  induction l as [|r l IH]; [done|].
  intros [[c Hc] Hl]%allocated_cons.
  rewrite deref_all_cons. simpl. rewrite Hc, IH, list_find_cons by done.
  destruct (String.eqb_spec (productId c) pid) as [Heq|Hne].
  - by rewrite decide_True.
  - rewrite decide_False by done.
    by destruct (list_find _ _) as [[? ?]|].
Qed.

(** Lines with pairwise different product ids are pairwise different
    objects. *)
Lemma NoDup_refs ls l :
  allocated ls l → NoDup (productId <$> deref_all ls l) → NoDup l.
Proof.
  induction l as [|r l IH]; [constructor|].
  intros [[c Hc] Hl]%allocated_cons.
  rewrite deref_all_cons, Hc, fmap_cons.
  intros [Hnotin Hnd]%NoDup_cons.
  constructor; [|by apply IH].
  intros Hin. apply Hnotin.
  apply list_elem_of_fmap. exists c. split; [done|].
  apply list_elem_of_omap. by exists r.
Qed.

Lemma deref_all_alter_notin ls f l r :
  r ∉ l → deref_all (alter f r ls) l = deref_all ls l.
Proof.
  induction l as [|r1 l IH]; [done|].
  intros [Hne Hnotin]%not_elem_of_cons.
  rewrite !deref_all_cons.
  rewrite lookup_alter_ne by done. by rewrite IH.
Qed.

(** Writing to one line object changes exactly the slot that refers to
    it. *)
Lemma deref_all_alter ls f l i r c :
  allocated ls l → NoDup l → l !! i = Some r → ls !! r = Some c →
  deref_all (alter f r ls) l = <[i := f c]> (deref_all ls l).
Proof.
  revert i. induction l as [|r0 l IH]; intros i Hal Hnd Hi Hc; [done|].
  apply NoDup_cons in Hnd as [Hnotin Hnd].
  apply allocated_cons in Hal as [[c0 Hc0] Hal].
  rewrite !deref_all_cons.
  destruct i as [|i]; simpl in Hi.
  - injection Hi as ->. rewrite lookup_alter_eq, Hc. simpl.
    by rewrite deref_all_alter_notin.
  - assert (r ≠ r0) as Hne.
    { intros ->. apply Hnotin. by eapply list_elem_of_lookup_2. }
    rewrite lookup_alter_ne by done.
    by rewrite (IH i Hal Hnd Hi Hc), Hc0.
Qed.

Lemma deref_all_insert_fresh ls o c l :
  allocated ls l → ls !! o = None →
  deref_all (<[o := c]> ls) l = deref_all ls l.
Proof.
  induction l as [|r l IH]; [done|].
  intros [[c' Hc'] Hl]%allocated_cons Ho.
  rewrite !deref_all_cons.
  rewrite lookup_insert_ne by congruence.
  by rewrite IH.
Qed.

Lemma fresh_line h : lines h !! fresh (dom (lines h)) = None.
Proof. apply not_elem_of_dom, is_fresh. Qed.

Lemma fresh_array h : arrays h !! fresh (dom (arrays h)) = None.
Proof. apply not_elem_of_dom, is_fresh. Qed.

Lemma array_at_insert h ls a l :
  array_at {| lines := ls; arrays := <[a := l]> (arrays h) |} a = l.
Proof. unfold array_at. simpl. by rewrite lookup_insert_eq. Qed.

Lemma wf_new_array h ls a l :
  allocated ls l →
  wf {| lines := ls; arrays := <[a := l]> (arrays h) |} {| items := a |}.
Proof.
  intros Hl. split; simpl.
  - rewrite lookup_insert_eq. by eexists.
  - by rewrite array_at_insert.
Qed.

(** The effect of one [addToCart] on what the new state shows, in terms
    of what the prior state showed. *)
Lemma addToCart_view item h s :
  wf h s → one_line_per_product h s →
  wf (addToCart item h s).1 (addToCart item h s).2 ∧
  one_line_per_product (addToCart item h s).1 (addToCart item h s).2 ∧
  view (addToCart item h s).1 (addToCart item h s).2 =
    match list_find (λ c, productId c = new_productId item) (view h s) with
    | None => view h s ++ [new_line item]
    | Some (i, c) => <[i := bump c]> (view h s)
    end.
Proof.
  intros [Harr Hl] Hnd. unfold one_line_per_product, view in *.
  unfold addToCart. rewrite findIndex_list_find by done.
  set (elems := array_at h (items s)) in *.
  destruct (list_find _ (deref_all (lines h) elems)) as [[i c]|] eqn:Hfind; simpl.
  - apply list_find_Some in Hfind as (Hi & Hpid & _).
    rewrite deref_all_lookup in Hi by done.
    destruct (elems !! i) as [r|] eqn:Hr; [|done]. simpl in Hi. simpl.
    rewrite array_at_insert.
    rewrite (deref_all_alter _ _ _ i r c); [|done|by eapply NoDup_refs|done..].
    split; [|split; [|done]].
    + apply wf_new_array.
      intros r' Hr'. destruct (Hl r' Hr') as [c' Hc'].
      destruct (decide (r = r')) as [->|Hne].
      * rewrite lookup_alter_eq, Hc'. by eexists.
      * rewrite lookup_alter_ne by done. by eexists.
    + rewrite list_fmap_insert. rewrite list_insert_id; [done|].
      rewrite list_lookup_fmap, deref_all_lookup, Hr by done. simpl.
      by rewrite Hi.
  - rewrite array_at_insert.
    apply list_find_None in Hfind.
    rewrite deref_all_app, deref_all_insert_fresh by (done || apply fresh_line).
    rewrite deref_all_cons, lookup_insert_eq. simpl.
    split; [|split; [|done]].
    + apply wf_new_array.
      intros r' [Hr'| ->%list_elem_of_singleton]%elem_of_app.
      * destruct (Hl r' Hr') as [c' Hc'].
        rewrite lookup_insert_ne; [by eexists|].
        intros <-. rewrite fresh_line in Hc'. done.
      * rewrite lookup_insert_eq. by eexists.
    + rewrite fmap_app. apply NoDup_app. split; [done|]. split.
      * intros pid' Hin ->%list_elem_of_singleton.
        apply list_elem_of_fmap in Hin as (c & Hc & Hin).
        rewrite Forall_forall in Hfind. by apply (Hfind c).
      * apply NoDup_singleton.
Qed.

Lemma wf_empty : wf empty_heap empty_cart.
Proof.
  split.
  - by eexists.
  - intros r Hr. by apply elem_of_nil in Hr.
Qed.

Lemma one_line_per_product_empty : one_line_per_product empty_heap empty_cart.
Proof. apply NoDup_nil_2. Qed.

(** X13. Every state the store can reach from the empty cart is well
    formed and holds at most one line per product id. *)
Lemma reachable_one_line_per_product (newItems : list AddToCartItem) :
  wf (addAll newItems (empty_heap, empty_cart)).1
     (addAll newItems (empty_heap, empty_cart)).2
  ∧ one_line_per_product (addAll newItems (empty_heap, empty_cart)).1
      (addAll newItems (empty_heap, empty_cart)).2.
Proof.
  unfold addAll.
  induction newItems as [|item newItems IH] using rev_ind.
  - split; [apply wf_empty | apply one_line_per_product_empty].
  - rewrite foldl_app. simpl. destruct IH as [Hwf Hnd].
    destruct (addToCart_view item _ _ Hwf Hnd) as (? & ? & _). done.
Qed.

(** C8.  On every cart that holds at most one line per product id,
    [addToCart] keeps it so: when no line has the item's product id the
    new cart is the old one followed by a line of quantity 1 (and adding
    the same item once more gives that one line quantity 2, not a second
    line); otherwise the new cart is the old one with the quantity of
    the matching line incremented by 1. *)
Theorem addToCart_one_line_per_product (item : AddToCartItem) h s :
  wf h s → one_line_per_product h s →
  let '(h1, s1) := addToCart item h s in
  let '(h2, s2) := addToCart item h1 s1 in
  wf h1 s1 ∧ one_line_per_product h1 s1 ∧
  match list_find (λ c, productId c = new_productId item) (view h s) with
  | None =>
      view h1 s1 =
        view h s ++ [mkCartItem (new_productId item) (new_name item)
                       (new_price item) 1 (new_imageUrl item)]
      ∧ view h2 s2 =
        view h s ++ [mkCartItem (new_productId item) (new_name item)
                       (new_price item) 2 (new_imageUrl item)]
  | Some (i, c) =>
      view h1 s1 =
        <[i := mkCartItem (productId c) (name c) (price c)
                 (quantity c + 1) (imageUrl c)]> (view h s)
  end.
Proof.
  intros Hwf Hnd.
  destruct (addToCart_view item h s Hwf Hnd) as (Hwf1 & Hnd1 & Hv1).
  destruct (addToCart_view item _ _ Hwf1 Hnd1) as (_ & _ & Hv2).
  destruct (addToCart item h s) as [h1 s1] eqn:E1. simpl in *.
  destruct (addToCart item h1 s1) as [h2 s2] eqn:E2. simpl in *.
  split; [done|]. split; [done|].
  destruct (list_find _ (view h s)) as [[i c]|] eqn:Hfind; [done|].
  split; [done|].
  rewrite Hv2, Hv1.
  rewrite list_find_app_r, list_find_cons, decide_True by done.
  simpl. rewrite insert_app_r_alt by lia.
  by rewrite Nat.sub_diag.
Qed.

Lemma addToCart_one_line_per_product_witness :
  let item := mkAddToCartItem "A" "Kopi" 10000 "/a.png" in
  (wf empty_heap empty_cart ∧ one_line_per_product empty_heap empty_cart) ∧
  let '(h1, s1) := addToCart item empty_heap empty_cart in
  let '(h2, s2) := addToCart item h1 s1 in
  wf h1 s1 ∧ one_line_per_product h1 s1 ∧
  view h1 s1 = [mkCartItem "A" "Kopi" 10000 1 "/a.png"] ∧
  view h2 s2 = [mkCartItem "A" "Kopi" 10000 2 "/a.png"].
Proof.
  split; [split; [apply wf_empty | apply one_line_per_product_empty]|].
  exact (addToCart_one_line_per_product
           (mkAddToCartItem "A" "Kopi" 10000 "/a.png")
           empty_heap empty_cart wf_empty one_line_per_product_empty).
Defined.

(** X14. What a holder of the prior state sees after [addToCart]: the
    same array, holding the same references, and behind them the same lines
    unless the product was already in the cart, in which case the
    matching line now shows the incremented quantity.  The new state
    has an array of its own in either case. *)
Lemma addToCart_prior_state item h s :
  wf h s → one_line_per_product h s →
  items (addToCart item h s).2 ≠ items s
  ∧ array_at (addToCart item h s).1 (items s) = array_at h (items s)
  ∧ view (addToCart item h s).1 s =
      match list_find (λ c, productId c = new_productId item) (view h s) with
      | None => view h s
      | Some (i, c) => <[i := bump c]> (view h s)
      end.
Proof.
  intros [Harr Hl] Hnd. unfold one_line_per_product, view in *.
  assert (fresh (dom (arrays h)) ≠ items s) as Hne.
  { intros Heq. rewrite <- Heq, fresh_array in Harr. by destruct Harr. }
  unfold addToCart. rewrite findIndex_list_find by done.
  set (elems := array_at h (items s)) in *.
  destruct (list_find _ (deref_all (lines h) elems)) as [[i c]|] eqn:Hfind; simpl.
  - apply list_find_Some in Hfind as (Hi & Hpid & _).
    rewrite deref_all_lookup in Hi by done.
    destruct (elems !! i) as [r|] eqn:Hr; [|done]. simpl in Hi. simpl.
    unfold array_at. simpl. rewrite lookup_insert_ne by done.
    fold (array_at h (items s)). fold elems.
    split; [done|]. split; [done|].
    apply deref_all_alter; [done|by eapply NoDup_refs|done..].
  - unfold array_at. simpl. rewrite lookup_insert_ne by done.
    fold (array_at h (items s)). fold elems.
    split; [done|]. split; [done|].
    apply deref_all_insert_fresh; [done | apply fresh_line].
Qed.

(** C9, the code at the failing input.  Product "A" is added to the
    empty cart, which gives a state showing one line of quantity 1; then
    it is added again.  The state held from the first call still has its
    array with the same single reference, but now shows quantity 2: the
    second call wrote to the line object in place.  (The state of the
    second call does have an array of its own.) *)
Theorem addToCart_writes_prior_line :
  let '(h1, s1) := addToCart Scenario.kopi empty_heap empty_cart in
  let '(h2, s2) := addToCart Scenario.kopi h1 s1 in
  view h1 s1 = [mkCartItem "A" "Kopi" 10000 1 "/a.png"]
  ∧ view h2 s1 = [mkCartItem "A" "Kopi" 10000 2 "/a.png"]
  ∧ array_at h2 (items s1) = array_at h1 (items s1)
  ∧ items s2 ≠ items s1.
Proof. vm_compute. repeat split; try reflexivity. discriminate. Qed.

End CartFacts.

(** ** Order creation *)

Section OrderFacts.
Import Order.
Implicit Types (w : World) (db : Db) (input : list RawItem).
Implicit Types (orderItems : list ClientItem) (catalog : list Product).

(** A product id is among the ids the client sent exactly when the client
    list has a quantity for it. *)
Lemma client_quantity_is_Some orderItems id :
  id ∈ item_productId <$> orderItems ↔ is_Some (client_quantity orderItems id).
Proof.
  unfold client_quantity.
  induction orderItems as [|item l IH].
  - split; [by intros ?%elem_of_nil | by intros [? ?]].
  - rewrite fmap_cons, elem_of_cons. cbn [find].
    destruct (String.eqb_spec (item_productId item) id) as [Heq|Hne]; simpl.
    + split; [by eexists | by left].
    + rewrite <- IH. split; [intros [?|?]; [congruence|done] | by right].
Qed.

Lemma productQuantity_run orderItems p db :
  productQuantity orderItems p db =
  (db, match client_quantity orderItems (product_id p) with
       | Some q => inr q
       | None => inl (TypeError "Cannot read properties of undefined (reading 'quantity')")
       end).
Proof.
  unfold productQuantity, client_quantity.
  by destruct (find _ orderItems).
Qed.

Lemma matched_lines_cons catalog orderItems p :
  matched_lines (p :: catalog) orderItems =
  match client_quantity orderItems (product_id p) with
  | Some q => (p, q) :: matched_lines catalog orderItems
  | None => matched_lines catalog orderItems
  end.
Proof.
  unfold matched_lines. simpl.
  by destruct (client_quantity orderItems (product_id p)).
Qed.

(** The [forEach] loop over the products [findMany] returned never reads
    a missing match, and adds up the matched lines from left to right. *)
Lemma subtotal_loop catalog orderItems acc db :
  foldM (λ subtotal product,
           let* productQuantity := productQuantity orderItems product in
           let totalPrice := (product_price product * productQuantity)%float in
           ret (subtotal + totalPrice)%float)
        acc
        (filter (λ p, product_id p ∈ item_productId <$> orderItems) catalog) db
  = (db, inr (fold_left PrimFloat.add
                ((λ line, (product_price line.1 * line.2)%float)
                   <$> matched_lines catalog orderItems) acc)).
Proof.
  revert acc. induction catalog as [|p catalog IH]; intros acc; [done|].
  rewrite filter_cons, matched_lines_cons.
  destruct (decide (product_id p ∈ item_productId <$> orderItems)) as [Hin|Hnotin].
  - apply client_quantity_is_Some in Hin as [q Hq]. rewrite Hq.
    simpl. unfold bind at 1. unfold bind at 1.
    rewrite productQuantity_run, Hq. unfold ret at 1. apply IH.
  - destruct (client_quantity orderItems (product_id p)) as [q|] eqn:Hq; [|apply IH].
    exfalso. apply Hnotin, client_quantity_is_Some. by eexists.
Qed.

(** Lines 73-89 compute the totals of the specification. *)
Lemma priceOrder_run catalog orderItems db :
  priceOrder (filter (λ p, product_id p ∈ item_productId <$> orderItems) catalog)
    orderItems db
  = (db, inr (spec_totals catalog orderItems)).
Proof.
  unfold priceOrder. unfold bind at 1. by rewrite subtotal_loop.
Qed.

(** The rows handed to [createMany]. *)
Lemma data_run catalog orderItems orderId db :
  mapM (λ product,
          let* productQuantity := productQuantity orderItems product in
          ret {| oi_orderId := orderId;
                 oi_price := product_price product;
                 oi_productId := product_id product;
                 oi_quantity := productQuantity |})
       (filter (λ p, product_id p ∈ item_productId <$> orderItems) catalog) db
  = (db, inr (item_rows orderId (matched_lines catalog orderItems))).
Proof.
  induction catalog as [|p catalog IH]; [done|].
  rewrite filter_cons, matched_lines_cons.
  destruct (decide (product_id p ∈ item_productId <$> orderItems)) as [Hin|Hnotin].
  - apply client_quantity_is_Some in Hin as [q Hq]. rewrite Hq.
    simpl. unfold bind at 1. unfold bind at 1.
    rewrite productQuantity_run, Hq. unfold ret at 1.
    unfold bind at 1. by rewrite IH.
  - destruct (client_quantity orderItems (product_id p)) as [q|] eqn:Hq; [|apply IH].
    exfalso. apply Hnotin, client_quantity_is_Some. by eexists.
Qed.

Lemma stored_order_insert id db row :
  stored_order id db = None → order_id row = id →
  stored_order id (insert_order row db) = Some row.
Proof.
  unfold stored_order, insert_order. simpl. intros Hnone <-.
  induction (orders db) as [|o l IH]; simpl in *.
  - by rewrite String.eqb_refl.
  - destruct (String.eqb (order_id o) (order_id row)); [done | by apply IH].
Qed.

Lemma stored_order_insert_items id data db :
  stored_order id (insert_items data db) = stored_order id db.
Proof. reflexivity. Qed.

Lemma stored_order_update id ext pm db :
  stored_order id (update_order id ext pm db)
  = set_payment_ids ext pm <$> stored_order id db.
Proof.
  unfold stored_order, update_order. simpl.
  induction (orders db) as [|o l IH]; [done|].
  rewrite fmap_cons. cbn [find].
  destruct (String.eqb (order_id o) id) eqn:E; simpl; by rewrite E.
Qed.

Lemma protectedProcedure_run w :
  protectedProcedure w
  = match session_userId w with
    | Some _ => ret tt
    | None => throw UNAUTHORIZED
    end.
Proof.
  unfold protectedProcedure, session_userId.
  by destruct (ctx_session_userId w) as [uid|]; [destruct (String.eqb uid "") eqn:E; simpl; rewrite ?E|].
Qed.

(** [createOrder], call by call. *)
Lemma createOrder_run w input db :
  createOrder w input db =
  match session_userId w with
  | None => (db, inl UNAUTHORIZED)
  | Some _ =>
  match issues_from 0 input with
  | _ :: _ => (db, inl (ZodError (issues_from 0 input)))
  | [] =>
  match product_findMany_fault w with
  | Some message => (db, inl (PrismaError message))
  | None =>
  if negb (totals_admitted w input db)
  then (db, inl (PrismaError "Invalid value provided")) else
  match order_create_fault w with
  | Some message => (db, inl (PrismaError message))
  | None =>
  match stored_order (order_create_id w) db with
  | Some _ => (db, inl (PrismaError "Unique constraint failed on the fields: (`id`)"))
  | None =>
  let order := created_order w input db in
  let db1 := insert_order order db in
  match orderItem_createMany_fault w with
  | Some message => (db1, inl (PrismaError message))
  | None =>
  let data := created_items w input db in
  let db2 := insert_items data db1 in
  match createQRIS w (order_grandTotal order) (order_id order) with
  | inl message => (db2, inl (XenditError message))
  | inr paymentRequest =>
  match order_update_fault w with
  | Some message => (db2, inl (PrismaError message))
  | None =>
  let db3 := update_order (order_id order) (pr_id paymentRequest)
               (pm_id (pr_paymentMethod paymentRequest)) db2 in
  match read_qrString paymentRequest db3 with
  | (_, inl e) => (db3, inl e)
  | (_, inr qrString) =>
      (db3, inr {| order := order;
                   newOrderItems := {| count := length data |};
                   qrString := qrString |})
  end end end end end end end end end.
Proof.
  unfold createOrder.
  unfold bind at 1. rewrite protectedProcedure_run.
  destruct (session_userId w) as [uid|]; [|done]. unfold ret at 1.
  unfold bind at 1. unfold parse_input.
  destruct (issues_from 0 input) as [|issue issues]; [|done]. unfold ret at 1.
  unfold bind at 1. unfold product_findMany. unfold bind at 1. unfold faulty.
  destruct (product_findMany_fault w) as [message|]; [done|]. unfold ret at 1.
  unfold bind at 1. rewrite priceOrder_run.
  unfold bind at 1. unfold order_create.
  fold (created_order w input db).
  change (money_column w (grandTotal (spec_totals (products db) (strip <$> input)))
          && money_column w (subtotal (spec_totals (products db) (strip <$> input)))
          && money_column w (tax (spec_totals (products db) (strip <$> input))))
    with (totals_admitted w input db).
  destruct (totals_admitted w input db); [|done]. simpl negb. cbv iota.
  unfold bind at 1. unfold faulty.
  destruct (order_create_fault w) as [message|]; [done|]. unfold ret at 1.
  destruct (stored_order (order_create_id w) db) as [o|] eqn:Hfresh; [done|].
  unfold bind at 1. rewrite data_run.
  unfold bind at 1. unfold orderItem_createMany. unfold bind at 1. unfold faulty.
  destruct (orderItem_createMany_fault w) as [message|]; [done|]. unfold ret at 1.
  unfold bind at 1. unfold call_createQRIS.
  fold (created_order w input db). fold (created_items w input db).
  simpl. 
  destruct (createQRIS w _ _) as [message|paymentRequest]; [done|]. unfold ret at 1.
  unfold bind at 1. unfold order_update. unfold bind at 1. unfold faulty.
  destruct (order_update_fault w) as [message|]; [done|]. unfold ret at 1.
  rewrite stored_order_insert_items, (stored_order_insert _ db) by done.
  unfold bind at 1.
  unfold read_qrString.
  destruct (pm_qrCode _) as [qrCode|]; [|done].
  by destruct (qr_channelProperties qrCode).
Qed.

(** A call that resolves went through every step. *)
Lemma createOrder_success w input db db' response :
  createOrder w input db = (db', inr response) →
  ∃ paymentRequest,
    issues_from 0 input = []
    ∧ totals_admitted w input db = true
    ∧ stored_order (order_create_id w) db = None
    ∧ createQRIS w (order_grandTotal (created_order w input db)) (order_create_id w)
      = inr paymentRequest
    ∧ order response = created_order w input db
    ∧ newOrderItems response = {| count := length (created_items w input db) |}
    ∧ db' = update_order (order_create_id w) (pr_id paymentRequest)
              (pm_id (pr_paymentMethod paymentRequest))
              (insert_items (created_items w input db)
                 (insert_order (created_order w input db) db)).
Proof.
  rewrite createOrder_run.
  destruct (session_userId w); [|done].
  destruct (issues_from 0 input); [|done].
  destruct (product_findMany_fault w); [done|].
  destruct (totals_admitted w input db); [|done]. simpl negb. cbv iota.
  destruct (order_create_fault w); [done|].
  destruct (stored_order (order_create_id w) db); [done|].
  destruct (orderItem_createMany_fault w); [done|].
  simpl.
  destruct (createQRIS w _ _) as [|paymentRequest]; [done|].
  destruct (order_update_fault w); [done|].
  destruct (read_qrString paymentRequest _) as [? [|qr]]; [done|].
  intros [= <- <-]. by exists paymentRequest.
Qed.

(** The item rows a call adds to the table: none, or those of the
    matched lines. *)
Lemma createOrder_new_rows w input db :
  ∃ rows,
    orderItems (createOrder w input db).1 = orderItems db ++ rows
    ∧ (rows = [] ∨ rows = created_items w input db).
Proof.
  rewrite createOrder_run.
  destruct (session_userId w); [|exists []; by rewrite app_nil_r; auto].
  destruct (issues_from 0 input); [|exists []; by rewrite app_nil_r; auto].
  destruct (product_findMany_fault w); [exists []; by rewrite app_nil_r; auto|].
  destruct (totals_admitted w input db);
    [|exists []; by rewrite app_nil_r; auto]. simpl negb. cbv iota.
  destruct (order_create_fault w); [exists []; by rewrite app_nil_r; auto|].
  destruct (stored_order (order_create_id w) db);
    [exists []; by rewrite app_nil_r; auto|].
  destruct (orderItem_createMany_fault w);
    [exists []; simpl; by rewrite app_nil_r; auto|].
  exists (created_items w input db). split; [|by right]. simpl.
  destruct (createQRIS w _ _) as [|paymentRequest]; [done|].
  destruct (order_update_fault w); [done|].
  by destruct (read_qrString paymentRequest _) as [? [|qr]].
Qed.

Lemma client_quantity_strip input id :
  client_quantity (strip <$> input) id
  = raw_quantity <$> find (λ raw, String.eqb (raw_productId raw) id) input.
Proof.
  unfold client_quantity.
  induction input as [|raw input IH]; [done|].
  rewrite fmap_cons. cbn [find]. simpl.
  by destruct (String.eqb (raw_productId raw) id).
Qed.

Lemma matched_lines_elem catalog orderItems p q :
  (p, q) ∈ matched_lines catalog orderItems →
  p ∈ catalog ∧ client_quantity orderItems (product_id p) = Some q.
Proof.
  unfold matched_lines. intros (p' & Hin & Hq)%list_elem_of_omap.
  destruct (client_quantity orderItems (product_id p')) as [q'|] eqn:E; [|done].
  simpl in Hq. by injection Hq as -> ->.
Qed.

(** Each created row pairs a catalog product with the first client line
    that names it. *)
Lemma created_items_elem w input db row :
  row ∈ created_items w input db →
  ∃ p raw,
    p ∈ products db
    ∧ find (λ raw, String.eqb (raw_productId raw) (product_id p)) input = Some raw
    ∧ row = {| oi_orderId := order_create_id w;
               oi_price := product_price p;
               oi_productId := product_id p;
               oi_quantity := raw_quantity raw |}.
Proof.
  unfold created_items, item_rows.
  intros ([p q] & -> & Hin)%list_elem_of_fmap.
  apply matched_lines_elem in Hin as [Hp Hq].
  rewrite client_quantity_strip in Hq.
  destruct (find _ input) as [raw|] eqn:Hfind; [|done].
  injection Hq as <-. by exists p, raw.
Qed.

Lemma issues_from_nil index input :
  issues_from index input = []
  ↔ Forall (λ raw, check_quantity (raw_quantity raw) = None) input.
Proof.
  revert index. induction input as [|raw input IH]; intros index; simpl.
  - split; [constructor | done].
  - rewrite Forall_cons.
    destruct (check_quantity (raw_quantity raw)).
    + split; [done | by intros [? _]].
    + rewrite IH. split; [by split | by intros [_ ?]].
Qed.

Lemma issues_from_strip index input1 input2 :
  strip <$> input1 = strip <$> input2 →
  issues_from index input1 = issues_from index input2.
Proof.
  revert index input2.
  induction input1 as [|raw1 input1 IH]; intros index [|raw2 input2]; try done.
  rewrite !fmap_cons. intros [= Hid Hq Hrest]. simpl.
  rewrite Hq, (IH (S index) input2 Hrest). done.
Qed.

Lemma matched_lines_ext catalog orderItems1 orderItems2 :
  (∀ p, p ∈ catalog →
        client_quantity orderItems1 (product_id p)
        = client_quantity orderItems2 (product_id p)) →
  matched_lines catalog orderItems1 = matched_lines catalog orderItems2.
Proof.
  intros Hext.
  induction catalog as [|p catalog IH]; [done|].
  rewrite !matched_lines_cons, (Hext p) by left.
  rewrite IH; [done|]. intros p' Hp'. apply Hext. by right.
Qed.

(** Lines naming no catalog product do not change what the client list
    says about catalog products. *)
Lemma client_quantity_known catalog input id :
  id ∈ product_id <$> catalog →
  client_quantity
    (strip <$> filter (λ raw, raw_productId raw ∈ product_id <$> catalog) input) id
  = client_quantity (strip <$> input) id.
Proof.
  intros Hid. rewrite !client_quantity_strip. f_equal.
  induction input as [|raw input IH]; [done|].
  rewrite filter_cons. cbn [find].
  destruct (decide (raw_productId raw ∈ product_id <$> catalog)) as [Hin|Hnotin].
  - cbn [find]. by destruct (String.eqb (raw_productId raw) id).
  - destruct (String.eqb_spec (raw_productId raw) id) as [Heq|Hne]; [|done].
    by rewrite Heq in Hnotin.
Qed.

End OrderFacts.

Section OrderClaims.
Import Order Scenario.
Implicit Types (w : World) (db : Db) (input : list RawItem).

(** *** Order row and item rows are written by two separate statements *)

(** C1, as stated, fails.  The [OrderItem] insert fails, the caller gets
    the database error, and the [Order] row written just before is still
    there, found by its id, with no item. *)
Lemma createOrder_order_survives_item_failure :
  let '(db', result) := createOrder world_item_failure two_kopi_one_teh shop in
  orderItem_createMany_fault world_item_failure = Some "Connection lost"
  ∧ result = inl (PrismaError "Connection lost")
  ∧ stored_order "o-1" db' = Some (new_order "o-1" 27500 25000 2500)
  ∧ orderItems db' = [].
Proof. vm_compute. repeat split; reflexivity. Qed.

(** C1, amended.  Whenever [createOrder] gets as far as the [OrderItem]
    insert and that insert fails, the call rejects with the database
    error, writes no [OrderItem] row, and leaves the [Order] row of the
    preceding statement in the database. *)
Theorem createOrder_item_failure_keeps_order w input db uid message :
  session_userId w = Some uid →
  issues_from 0 input = [] →
  product_findMany_fault w = None →
  order_create_fault w = None →
  totals_admitted w input db = true →
  stored_order (order_create_id w) db = None →
  orderItem_createMany_fault w = Some message →
  let '(db', result) := createOrder w input db in
  result = inl (PrismaError message)
  ∧ orders db' = orders db ++ [created_order w input db]
  ∧ stored_order (order_create_id w) db' = Some (created_order w input db)
  ∧ orderItems db' = orderItems db
  ∧ products db' = products db.
Proof.
  intros Hs Hi Hf Hc Ha Hfresh Hm.
  rewrite createOrder_run, Hs, Hi, Hf, Ha, Hc, Hfresh, Hm. simpl.
  repeat split. by apply stored_order_insert.
Qed.

Lemma createOrder_item_failure_keeps_order_witness :
  let w := world_item_failure in
  let input := two_kopi_one_teh in
  (session_userId w = Some "user_1"
   ∧ issues_from 0 input = []
   ∧ product_findMany_fault w = None
   ∧ order_create_fault w = None
   ∧ totals_admitted w input shop = true
   ∧ stored_order (order_create_id w) shop = None
   ∧ orderItem_createMany_fault w = Some "Connection lost")
  ∧ let '(db', result) := createOrder w input shop in
    result = inl (PrismaError "Connection lost")
    ∧ orders db' = orders shop ++ [created_order w input shop]
    ∧ stored_order (order_create_id w) db' = Some (created_order w input shop)
    ∧ orderItems db' = orderItems shop
    ∧ products db' = products shop.
Proof.
  split; [repeat split; reflexivity|].
  exact (createOrder_item_failure_keeps_order world_item_failure
           two_kopi_one_teh shop "user_1" "Connection lost"
           eq_refl eq_refl eq_refl eq_refl eq_refl eq_refl eq_refl).
Defined.

(** *** Gateway failure *)

(** C5, as stated, fails in its last part.  Two calls whose gateway
    request fails in the same way, on databases that name the new order
    differently, reject with the same value: what the caller receives
    does not tell which order was created. *)
Lemma createOrder_gateway_failure_hides_order_id :
  let '(dbA, resultA) := createOrder (world_gateway_down "o-1") two_kopi_one_teh shop in
  let '(dbB, resultB) := createOrder (world_gateway_down "o-2") two_kopi_one_teh shop in
  order_id <$> orders dbA = ["o-1"]
  ∧ order_id <$> orders dbB = ["o-2"]
  ∧ resultA = inl (XenditError "connect ECONNREFUSED")
  ∧ resultB = resultA.
Proof. vm_compute. repeat split; reflexivity. Qed.

(** C5, amended.  Whenever the gateway call of [createOrder] fails, the
    order stays stored with the default status and without external ids,
    together with its item rows, and the call rejects with exactly the
    error the gateway threw (no order id is attached to it). *)
Theorem createOrder_gateway_failure w input db uid message :
  session_userId w = Some uid →
  issues_from 0 input = [] →
  product_findMany_fault w = None →
  order_create_fault w = None →
  totals_admitted w input db = true →
  stored_order (order_create_id w) db = None →
  orderItem_createMany_fault w = None →
  createQRIS w (order_grandTotal (created_order w input db)) (order_create_id w)
    = inl message →
  let '(db', result) := createOrder w input db in
  result = inl (XenditError message)
  ∧ (∃ o, stored_order (order_create_id w) db' = Some o
          ∧ order_status o = AWAITING_PAYMENT
          ∧ order_externalTransactionId o = None
          ∧ order_paymentMethodId o = None)
  ∧ orders db' = orders db ++ [created_order w input db]
  ∧ orderItems db' = orderItems db ++ created_items w input db.
Proof.
  intros Hs Hi Hf Hc Ha Hfresh Hm Hq.
  rewrite createOrder_run, Hs, Hi, Hf, Ha, Hc, Hfresh, Hm. simpl.
  simpl in Hq. rewrite Hq.
  split; [done|]. split; [|done].
  exists (created_order w input db).
  rewrite stored_order_insert_items. split; [|done].
  by apply stored_order_insert.
Qed.

Lemma createOrder_gateway_failure_witness :
  let w := world_gateway_down "o-1" in
  let input := two_kopi_one_teh in
  (session_userId w = Some "user_1"
   ∧ issues_from 0 input = []
   ∧ product_findMany_fault w = None
   ∧ order_create_fault w = None
   ∧ totals_admitted w input shop = true
   ∧ stored_order (order_create_id w) shop = None
   ∧ orderItem_createMany_fault w = None
   ∧ createQRIS w (order_grandTotal (created_order w input shop)) (order_create_id w)
     = inl "connect ECONNREFUSED")
  ∧ let '(db', result) := createOrder w input shop in
    result = inl (XenditError "connect ECONNREFUSED")
    ∧ (∃ o, stored_order (order_create_id w) db' = Some o
            ∧ order_status o = AWAITING_PAYMENT
            ∧ order_externalTransactionId o = None
            ∧ order_paymentMethodId o = None)
    ∧ orders db' = orders shop ++ [created_order w input shop]
    ∧ orderItems db' = orderItems shop ++ created_items w input shop.
Proof.
  split; [repeat split; reflexivity|].
  exact (createOrder_gateway_failure (world_gateway_down "o-1")
           two_kopi_one_teh shop "user_1" "connect ECONNREFUSED"
           eq_refl eq_refl eq_refl eq_refl eq_refl eq_refl eq_refl eq_refl).
Defined.

(** *** Input validation *)

Lemma issues_from_elem index input i raw code :
  input !! i = Some raw → check_quantity (raw_quantity raw) = Some code →
  mkZodIssue (index + i) code ∈ issues_from index input.
Proof.
  revert index i. induction input as [|raw0 input IH]; intros index i Hi Hcode; [done|].
  destruct i as [|i]; simpl in Hi.
  - injection Hi as ->. simpl. rewrite Hcode, Nat.add_0_r. left.
  - simpl. replace (index + S i) with (S index + i) by lia.
    destruct (check_quantity (raw_quantity raw0)); [right|]; by apply IH.
Qed.

(** A number below 1 is not [NaN]. *)
Lemma check_quantity_small q :
  (q <? 1)%float = true → check_quantity q = Some too_small.
Proof.
  intros Hlt. unfold check_quantity, is_nan. rewrite Hlt.
  rewrite FloatAxioms.ltb_spec in Hlt. rewrite FloatAxioms.eqb_spec.
  unfold SFltb in Hlt. unfold SFeqb.
  destruct (Prim2SF q) as [s|s| |s m e]; try done; simpl.
  - by destruct s.
  - destruct s; by rewrite Z.compare_refl, Pos.compare_cont_refl.
Qed.

(** C6, as stated, fails for the empty list: it passes validation, and an
    order without items and with zero totals is created and sent to the
    gateway. *)
Lemma createOrder_accepts_empty_list :
  let '(db', result) := createOrder (world_ok "o-1") [] shop in
  result = inr {| order := new_order "o-1" 0 0 0;
                  newOrderItems := {| count := 0 |};
                  qrString := Some "00020101" |}
  ∧ order_id <$> orders db' = ["o-1"]
  ∧ orderItems db' = [].
Proof. vm_compute. repeat split; reflexivity. Qed.

(** C6, amended.  Whenever some item of the request has a quantity less
    than 1, [createOrder] leaves the database as it was, and an
    authenticated call rejects with a validation error that names that
    item's quantity as too small.  (The empty list is not rejected.) *)
Theorem createOrder_rejects_small_quantity w input db uid i raw :
  session_userId w = Some uid →
  input !! i = Some raw →
  (raw_quantity raw <? 1)%float = true →
  let '(db', result) := createOrder w input db in
  db' = db
  ∧ ∃ issues, result = inl (ZodError issues) ∧ mkZodIssue i too_small ∈ issues.
Proof.
  intros Hs Hi Hq.
  pose proof (issues_from_elem 0 input i raw too_small Hi
                (check_quantity_small _ Hq)) as Hin.
  rewrite createOrder_run, Hs.
  destruct (issues_from 0 input) as [|issue issues]; [by apply elem_of_nil in Hin|].
  split; [done|]. by eexists.
Qed.

Lemma createOrder_rejects_small_quantity_witness :
  let input := [mkRawItem "p1" 2 []; mkRawItem "p2" 0.5 []] in
  (session_userId (world_ok "o-1") = Some "user_1"
   ∧ input !! 1 = Some (mkRawItem "p2" 0.5 [])
   ∧ (0.5 <? 1)%float = true)
  ∧ let '(db', result) := createOrder (world_ok "o-1") input shop in
    db' = shop
    ∧ ∃ issues, result = inl (ZodError issues) ∧ mkZodIssue 1 too_small ∈ issues.
Proof.
  split; [repeat split; reflexivity|].
  exact (createOrder_rejects_small_quantity (world_ok "o-1")
           [mkRawItem "p1" 2 []; mkRawItem "p2" 0.5 []] shop "user_1" 1
           (mkRawItem "p2" 0.5 []) eq_refl eq_refl eq_refl).
Defined.

(** *** The returned order object *)

(** C10.  In every call that resolves, the [order] of the response is
    the row as first created, with both external ids unset, while the
    stored row of that id already carries the ids the gateway returned. *)
Theorem createOrder_response_order_is_stale w input db db' response :
  createOrder w input db = (db', inr response) →
  order_externalTransactionId (order response) = None
  ∧ order_paymentMethodId (order response) = None
  ∧ ∃ paymentRequest,
      createQRIS w (order_grandTotal (order response)) (order_id (order response))
        = inr paymentRequest
      ∧ stored_order (order_id (order response)) db'
        = Some (set_payment_ids (pr_id paymentRequest)
                  (pm_id (pr_paymentMethod paymentRequest)) (order response)).
Proof.
  intros (paymentRequest & _ & _ & Hfresh & Hq & -> & _ & ->)%createOrder_success.
  split; [done|]. split; [done|].
  exists paymentRequest. split; [done|]. simpl.
  rewrite stored_order_update, stored_order_insert_items.
  by rewrite (stored_order_insert _ db).
Qed.

Lemma createOrder_response_order_is_stale_witness :
  let response := {| order := new_order "o-1" 27500 25000 2500;
                     newOrderItems := {| count := 2 |};
                     qrString := Some "00020101" |} in
  let db' := update_order "o-1" "pr-1" "pm-1"
               (insert_items (created_items (world_ok "o-1") two_kopi_one_teh shop)
                  (insert_order (new_order "o-1" 27500 25000 2500) shop)) in
  createOrder (world_ok "o-1") two_kopi_one_teh shop = (db', inr response)
  ∧ order_externalTransactionId (order response) = None
  ∧ order_paymentMethodId (order response) = None
  ∧ ∃ paymentRequest,
      createQRIS (world_ok "o-1") (order_grandTotal (order response))
        (order_id (order response)) = inr paymentRequest
      ∧ stored_order (order_id (order response)) db'
        = Some (set_payment_ids (pr_id paymentRequest)
                  (pm_id (pr_paymentMethod paymentRequest)) (order response)).
Proof.
  split; [reflexivity|].
  exact (createOrder_response_order_is_stale (world_ok "o-1") two_kopi_one_teh shop
           _ _ eq_refl).
Defined.

(** *** Item rows *)

(** C4.  Every [OrderItem] row a call of [createOrder] writes carries the
    price of the catalog product of that id as read in this call, and the
    quantity of the client's (first) line for that id; what else the
    client attached to its lines has no effect on the call; and the rows
    written are values of their own, which a later write to the
    [Product] table leaves as they are. *)
Theorem createOrder_items_snapshot_catalog_price w input db :
  (∃ rows,
     orderItems (createOrder w input db).1 = orderItems db ++ rows
     ∧ ∀ row, row ∈ rows →
         ∃ p raw,
           p ∈ products db
           ∧ product_id p = oi_productId row
           ∧ oi_price row = product_price p
           ∧ find (λ raw, String.eqb (raw_productId raw) (oi_productId row)) input
             = Some raw
           ∧ oi_quantity row = raw_quantity raw)
  ∧ (∀ input', strip <$> input' = strip <$> input →
               createOrder w input' db = createOrder w input db)
  ∧ (∀ catalog,
       orderItems (with_products catalog (createOrder w input db).1)
       = orderItems (createOrder w input db).1).
Proof.
  split; [|split; [|done]].
  - destruct (createOrder_new_rows w input db) as (rows & Hrows & [-> | ->]).
    + exists []. split; [done|]. by intros row ?%elem_of_nil.
    + eexists. split; [done|].
      intros row (p & raw & Hp & Hfind & ->)%created_items_elem.
      by exists p, raw.
  - intros input' Hstrip.
    rewrite !createOrder_run.
    unfold totals_admitted, created_order, created_items.
    by rewrite Hstrip, (issues_from_strip 0 input' input Hstrip).
Qed.

(** *** Unknown product ids *)

(** C7.  On every request that passes validation, [createOrder] does
    exactly what it does on the same request without the lines whose
    product id is not in the catalog: such lines are not a reason to
    reject, add nothing to the totals, and no [OrderItem] row is written
    for them. *)
Theorem createOrder_drops_unknown_products w input db :
  issues_from 0 input = [] →
  createOrder w input db
  = createOrder w (filter (λ raw, raw_productId raw ∈ product_id <$> products db) input) db
  ∧ ∃ rows,
      orderItems (createOrder w input db).1 = orderItems db ++ rows
      ∧ ∀ row, row ∈ rows → oi_productId row ∈ product_id <$> products db.
Proof.
  intros Hvalid. split.
  - assert (issues_from 0
              (filter (λ raw, raw_productId raw ∈ product_id <$> products db) input)
            = []) as Hvalid'.
    { apply issues_from_nil in Hvalid. apply issues_from_nil.
      rewrite Forall_forall in *. intros raw [_ Hraw]%list_elem_of_filter.
      by apply Hvalid. }
    assert (matched_lines (products db)
              (strip <$> filter (λ raw, raw_productId raw ∈ product_id <$> products db) input)
            = matched_lines (products db) (strip <$> input)) as Hlines.
    { apply matched_lines_ext. intros p Hp.
      apply client_quantity_known. by apply list_elem_of_fmap_2. }
    rewrite !createOrder_run, Hvalid, Hvalid'.
    unfold totals_admitted, created_order, created_items, spec_totals, spec_subtotal.
    by rewrite Hlines.
  - destruct (createOrder_new_rows w input db) as (rows & Hrows & [-> | ->]).
    + exists []. split; [done|]. by intros row ?%elem_of_nil.
    + eexists. split; [done|].
      intros row (p & raw & Hp & Hfind & ->)%created_items_elem.
      simpl. by apply list_elem_of_fmap_2.
Qed.

Lemma createOrder_drops_unknown_products_witness :
  let input := [mkRawItem "p1" 2 []; mkRawItem "ghost" 7 []; mkRawItem "p2" 1 []] in
  let w := world_ok "o-1" in
  issues_from 0 input = []
  ∧ (createOrder w input shop
     = createOrder w (filter (λ raw, raw_productId raw ∈ product_id <$> products shop) input) shop
     ∧ ∃ rows,
         orderItems (createOrder w input shop).1 = orderItems shop ++ rows
         ∧ ∀ row, row ∈ rows → oi_productId row ∈ product_id <$> products shop).
Proof.
  split; [reflexivity|].
  exact (createOrder_drops_unknown_products (world_ok "o-1")
           [mkRawItem "p1" 2 []; mkRawItem "ghost" 7 []; mkRawItem "p2" 1 []]
           shop eq_refl).
Defined.

(** *** Pricing *)

(** C2.  The pricing lines of [createOrder] are a function of the catalog
    and the client lines alone: on the products [findMany] returns they
    do not throw, leave the database alone, and give the subtotal that
    is the sum, over the catalog products the client names, of catalog
    price × client quantity, the tax subtotal × 0.1 and the grand total
    subtotal + tax; these are the totals of the order of every call that
    resolves; for prices 10000 and 5000 with quantities 2 and 1 they are
    25000, 2500 and 27500. *)
Theorem createOrder_pricing w input db db' response :
  createOrder w input db = (db', inr response) →
  let catalog := products db in
  let orderItems := strip <$> input in
  priceOrder (filter (λ p, product_id p ∈ item_productId <$> orderItems) catalog)
    orderItems db
  = (db, inr (spec_totals catalog orderItems))
  ∧ order_subtotal (order response)
    = js_sum ((λ line, (product_price line.1 * line.2)%float)
                <$> matched_lines catalog orderItems)
  ∧ order_tax (order response) = (order_subtotal (order response) * Js.tenth)%float
  ∧ order_grandTotal (order response)
    = (order_subtotal (order response) + order_tax (order response))%float
  ∧ priceOrder [mkProduct "a" "A" 10000 "/a" "c"; mkProduct "b" "B" 5000 "/b" "c"]
      [mkClientItem "a" 2; mkClientItem "b" 1] db
    = (db, inr {| subtotal := 25000; tax := 2500; grandTotal := 27500 |}).
Proof.
  intros (paymentRequest & _ & _ & _ & _ & -> & _ & _)%createOrder_success.
  intros catalog orderItems'.
  split; [apply priceOrder_run|]. by repeat split.
Qed.

Lemma createOrder_pricing_witness :
  let response := {| order := new_order "o-1" 27500 25000 2500;
                     newOrderItems := {| count := 2 |};
                     qrString := Some "00020101" |} in
  let db' := update_order "o-1" "pr-1" "pm-1"
               (insert_items (created_items (world_ok "o-1") two_kopi_one_teh shop)
                  (insert_order (new_order "o-1" 27500 25000 2500) shop)) in
  createOrder (world_ok "o-1") two_kopi_one_teh shop = (db', inr response)
  ∧ order_subtotal (order response) = 25000%float
  ∧ order_tax (order response) = (25000 * Js.tenth)%float
  ∧ order_grandTotal (order response) = (25000 + 2500)%float.
Proof.
  split; [reflexivity|].
  pose proof (createOrder_pricing (world_ok "o-1") two_kopi_one_teh shop _ _ eq_refl)
    as (_ & Hsub & Htax & Hgrand & _).
  split; [exact Hsub|]. split; [exact Htax | exact Hgrand].
Defined.

(** *** Exactness of the persisted totals *)

Lemma exact_subtotal_nonneg lines zs :
  Forall2 integer_line lines zs → (0 ≤ exact_subtotal zs)%Z.
Proof.
  induction 1 as [|line z lines zs (Hp & Hq & _) _ IH]; simpl; [done|]. nia.
Qed.

(** On integer lines whose total stays below [2^53], the running sum of
    the loop is the integer sum. *)
Lemma subtotal_integers lines zs acc :
  Forall2 integer_line lines zs →
  (0 ≤ acc)%Z → (acc + exact_subtotal zs < 2 ^ 53)%Z →
  fold_left PrimFloat.add
    ((λ line, (product_price line.1 * line.2)%float) <$> lines) (Js.of_Z acc)
  = Js.of_Z (acc + exact_subtotal zs).
Proof.
  intros Hlines. revert acc.
  induction Hlines as [|line z lines zs (Hp & Hq & Hprice & Hqty) Hrest IH];
    intros acc Hacc Hbound; simpl.
  - by rewrite Z.add_0_r.
  - pose proof (exact_subtotal_nonneg _ _ Hrest) as Hnn.
    simpl in Hbound.
    rewrite Hprice, Hqty, mul_integers_exact by (done || nia).
    rewrite add_integers_exact by nia.
    rewrite IH by nia. f_equal. lia.
Qed.

(** What lines 88 and 89 compute on a subtotal that is no multiple of
    ten.  With a catalog price of 1005 the tax handed to the [Order]
    insert is 100.5 and the grand total 1105.5; with a price of 1003 the
    tax is 100.30000000000001, one unit in the last place above the
    binary64 value of 100.3.  With integer columns, as in the spec's data
    model, the insert is refused and no order is created for this cart;
    a double-precision column would keep these values. *)
Lemma createOrder_tax_not_integer :
  let '(db1, result1) :=
    createOrder (world_float_columns "o-1") [mkRawItem "p3" 1 []] odd_shop in
  let '(db2, result2) :=
    createOrder (world_float_columns "o-2") [mkRawItem "p4" 1 []] odd_shop in
  let '(db3, result3) :=
    createOrder (world_ok "o-3") [mkRawItem "p3" 1 []] odd_shop in
  result1 = inr {| order := new_order "o-1" 0x1.146p+10 1005 0x1.92p+6;
                   newOrderItems := {| count := 1 |};
                   qrString := Some "00020101" |}
  ∧ (order_subtotal <$> stored_order "o-1" db1) = Some 1005%float
  ∧ (order_tax <$> stored_order "o-1" db1) = Some 0x1.92p+6%float
  ∧ (order_grandTotal <$> stored_order "o-1" db1) = Some 0x1.146p+10%float
  ∧ Js.isInteger 1005 = true
  ∧ Js.isInteger 0x1.92p+6 = false
  ∧ Js.isInteger 0x1.146p+10 = false
  ∧ (order_subtotal <$> stored_order "o-2" db2) = Some 1003%float
  ∧ (order_tax <$> stored_order "o-2" db2) = Some 0x1.9133333333334p+6%float
  ∧ (0x1.9133333333334p+6 =? 0x1.9133333333333p+6)%float = false
  ∧ result3 = inl (PrismaError "Invalid value provided")
  ∧ db3 = odd_shop.
Proof. vm_compute. repeat split; reflexivity. Qed.

(** X16.  For every order [createOrder] creates from matched lines with
    integer prices and quantities whose exact subtotal is a multiple of
    ten, [10 * n], with [11 * n] below [2^53], the subtotal, tax and
    grand total of the order, in the response and in the stored row, are
    exactly the non-negative integers [10 * n], [n] and [11 * n]:
    binary64 rounding changes none of them. *)
Theorem createOrder_totals_exact w input db db' response zs n :
  createOrder w input db = (db', inr response) →
  Forall2 integer_line (matched_lines (products db) (strip <$> input)) zs →
  exact_subtotal zs = (10 * n)%Z →
  (11 * n < 2 ^ 53)%Z →
  (0 ≤ n)%Z
  ∧ order_subtotal (order response) = Js.of_Z (10 * n)
  ∧ order_tax (order response) = Js.of_Z n
  ∧ order_grandTotal (order response) = Js.of_Z (11 * n)
  ∧ (∃ o, stored_order (order_id (order response)) db' = Some o
          ∧ order_subtotal o = Js.of_Z (10 * n)
          ∧ order_tax o = Js.of_Z n
          ∧ order_grandTotal o = Js.of_Z (11 * n))
  ∧ Forall (λ x, Js.isInteger x = true ∧ Js.nonneg x = true)
      [Js.of_Z (10 * n); Js.of_Z n; Js.of_Z (11 * n)].
Proof.
  intros (paymentRequest & _ & _ & Hfresh & _ & Horder & _ & ->)%createOrder_success
         Hlines Hsum Hbound.
  pose proof (exact_subtotal_nonneg _ _ Hlines) as Hnn.
  assert (0 ≤ n)%Z as Hn by lia.
  assert (spec_subtotal (products db) (strip <$> input) = Js.of_Z (10 * n)) as Hsub.
  { unfold spec_subtotal, js_sum. change 0%float with (Js.of_Z 0).
    rewrite (subtotal_integers _ zs) by (done || lia). f_equal. lia. }
  assert (order_subtotal (order response) = Js.of_Z (10 * n)) as Hs.
  { by rewrite Horder. }
  assert (order_tax (order response) = Js.of_Z n) as Ht.
  { rewrite Horder. simpl. rewrite Hsub. apply mul_tenth_exact; lia. }
  assert (order_grandTotal (order response) = Js.of_Z (11 * n)) as Hg.
  { rewrite Horder. simpl. rewrite Hsub, mul_tenth_exact by lia.
    rewrite add_integers_exact by lia. f_equal. lia. }
  split; [done|]. split; [done|]. split; [done|]. split; [done|]. split.
  - exists (set_payment_ids (pr_id paymentRequest)
              (pm_id (pr_paymentMethod paymentRequest)) (order response)).
    split; [|done]. rewrite Horder. simpl.
    rewrite stored_order_update, stored_order_insert_items.
    by rewrite (stored_order_insert _ db).
  - repeat constructor; apply of_Z_isInteger; lia.
Qed.

(** X16, for two of a product at 10000 and one at 5000. *)
Lemma createOrder_totals_exact_witness :
  let response := {| order := new_order "o-1" 27500 25000 2500;
                     newOrderItems := {| count := 2 |};
                     qrString := Some "00020101" |} in
  let db' := update_order "o-1" "pr-1" "pm-1"
               (insert_items (created_items (world_ok "o-1") two_kopi_one_teh shop)
                  (insert_order (new_order "o-1" 27500 25000 2500) shop)) in
  (createOrder (world_ok "o-1") two_kopi_one_teh shop = (db', inr response)
   ∧ Forall2 integer_line
       (matched_lines (products shop) (strip <$> two_kopi_one_teh))
       [(10000, 2); (5000, 1)]%Z
   ∧ exact_subtotal [(10000, 2); (5000, 1)]%Z = (10 * 2500)%Z
   ∧ (11 * 2500 < 2 ^ 53)%Z)
  ∧ order_subtotal (order response) = Js.of_Z 25000
  ∧ order_tax (order response) = Js.of_Z 2500
  ∧ order_grandTotal (order response) = Js.of_Z 27500.
Proof.
  assert (Forall2 integer_line
            (matched_lines (products shop) (strip <$> two_kopi_one_teh))
            [(10000, 2); (5000, 1)]%Z) as Hlines.
  { repeat constructor; simpl; lia. }
  split; [split; [reflexivity | split; [exact Hlines | split; [reflexivity | lia]]]|].
  pose proof (createOrder_totals_exact (world_ok "o-1") two_kopi_one_teh shop _ _
                [(10000, 2); (5000, 1)]%Z 2500%Z eq_refl Hlines eq_refl eq_refl)
    as (_ & Hs & Ht & Hg & _).
  split; [exact Hs|]. split; [exact Ht | exact Hg].
Defined.

End OrderClaims.

(** ** Further properties of order creation *)

Section OrderFurther.
Import Order OrderSpec Scenario FurtherScenario.
Implicit Types (w : World) (db : Db) (input : list RawItem).

Lemma stored_order_None id db :
  stored_order id db = None → id ∉ order_id <$> orders db.
Proof.
  unfold stored_order. intros Hnone (o & -> & Ho)%list_elem_of_fmap.
  apply list_elem_of_In in Ho.
  apply (find_none _ _ Hnone) in Ho. by rewrite String.eqb_refl in Ho.
Qed.

(** The reconciliation write touches no row when no row has the id. *)
Lemma update_order_fresh id ext pm (l : list Order) :
  id ∉ order_id <$> l →
  (λ o, if String.eqb (order_id o) id then set_payment_ids ext pm o else o) <$> l = l.
Proof.
  induction l as [|o l IH]; [done|].
  rewrite !fmap_cons. intros [Hne Hl]%not_elem_of_cons.
  rewrite IH by done.
  destruct (String.eqb_spec (order_id o) id) as [Heq|_]; [by rewrite Heq in Hne | done].
Qed.

(** The database after a call: as before, or with the new order, or with
    the new order and its items, or with these and the payment ids. *)
Lemma createOrder_db_cases w input db :
  (createOrder w input db).1 = db
  ∨ stored_order (order_create_id w) db = None
    ∧ ((createOrder w input db).1 = insert_order (created_order w input db) db
       ∨ (createOrder w input db).1
         = insert_items (created_items w input db)
             (insert_order (created_order w input db) db)
       ∨ ∃ ext pm,
           (createOrder w input db).1
           = update_order (order_create_id w) ext pm
               (insert_items (created_items w input db)
                  (insert_order (created_order w input db) db))).
Proof.
  rewrite createOrder_run.
  destruct (session_userId w); [|by left].
  destruct (issues_from 0 input); [|by left].
  destruct (product_findMany_fault w); [by left|].
  destruct (totals_admitted w input db); [|by left]. simpl negb. cbv iota.
  destruct (order_create_fault w); [by left|].
  destruct (stored_order (order_create_id w) db) eqn:Hfresh; [by left|].
  right. split; [done|].
  destruct (orderItem_createMany_fault w); [by left|].
  cbv zeta.
  destruct (createQRIS w _ _) as [|paymentRequest]; [right; by left|].
  destruct (order_update_fault w); [right; by left|].
  right. right. exists (pr_id paymentRequest), (pm_id (pr_paymentMethod paymentRequest)).
  by destruct (read_qrString paymentRequest _) as [? [|qr]].
Qed.

(** The orders table after a call: as before, or with one more row, whose
    id no earlier row has. *)
Lemma createOrder_orders w input db :
  orders (createOrder w input db).1 = orders db
  ∨ (order_create_id w ∉ order_id <$> orders db)
    ∧ ∃ o, orders (createOrder w input db).1 = orders db ++ [o]
           ∧ order_id o = order_create_id w
           ∧ order_subtotal o = order_subtotal (created_order w input db)
           ∧ order_tax o = order_tax (created_order w input db)
           ∧ order_grandTotal o = order_grandTotal (created_order w input db).
Proof.
  destruct (createOrder_db_cases w input db)
    as [-> | [Hfresh%stored_order_None [-> | [-> | (ext & pm & ->)]]]];
    [by left | right; split; [done|]..].
  - by eexists.
  - by eexists.
  - simpl. rewrite fmap_app, update_order_fresh by done. simpl.
    rewrite String.eqb_refl. by eexists.
Qed.

(** X1.  A call of [createOrder], whatever its outcome, leaves the
    [Product] table and every earlier [Order] and [OrderItem] row as they
    were: it adds at most one order row, with the generated id, and item
    rows after the earlier ones. *)
Theorem createOrder_keeps_earlier_rows w input db :
  products (createOrder w input db).1 = products db
  ∧ (∃ rows, orderItems (createOrder w input db).1 = orderItems db ++ rows)
  ∧ (orders (createOrder w input db).1 = orders db
     ∨ ∃ o, orders (createOrder w input db).1 = orders db ++ [o]
            ∧ order_id o = order_create_id w).
Proof.
  split; [|split].
  - by destruct (createOrder_db_cases w input db)
      as [-> | [_ [-> | [-> | (ext & pm & ->)]]]].
  - destruct (createOrder_new_rows w input db) as (rows & Hrows & _). by exists rows.
  - destruct (createOrder_orders w input db) as [Heq | [_ (o & Ho & Hid & _)]];
      [by left | right; by exists o].
Qed.

Lemma stored_order_insert_is_Some id row db :
  is_Some (stored_order id db) → is_Some (stored_order id (insert_order row db)).
Proof.
  unfold stored_order, insert_order. simpl. intros [o Ho].
  exists o. induction (orders db) as [|o' l IH]; [done|]. simpl in *.
  destruct (String.eqb (order_id o') id); [done | by apply IH].
Qed.

Lemma stored_order_update_is_Some id id' ext pm db :
  is_Some (stored_order id db) →
  is_Some (stored_order id (update_order id' ext pm db)).
Proof.
  unfold stored_order, update_order. simpl. intros [o Ho].
  induction (orders db) as [|o' l IH]; [done|].
  rewrite fmap_cons. cbn [find] in *.
  assert (order_id (if String.eqb (order_id o') id'
                    then set_payment_ids ext pm o' else o') = order_id o') as ->.
  { by destruct (String.eqb (order_id o') id'). }
  destruct (String.eqb (order_id o') id); [by eexists | by apply IH].
Qed.

(** X3.  If every stored [OrderItem] row belongs to a stored order and
    names a stored product, this still holds after a call of
    [createOrder], whatever its outcome: item rows are never written
    without their order row. *)
Theorem createOrder_keeps_items_attached w input db :
  items_reference_rows db →
  items_reference_rows (createOrder w input db).1.
Proof.
  intros Hdb.
  destruct (createOrder_db_cases w input db)
    as [-> | [Hfresh [-> | [-> | (ext & pm & ->)]]]]; [done|..].
  - intros row Hrow. destruct (Hdb row Hrow) as [Ho Hp].
    split; [by apply stored_order_insert_is_Some | done].
  - intros row [Hrow | Hrow]%elem_of_app.
    + destruct (Hdb row Hrow) as [Ho Hp].
      split; [by apply stored_order_insert_is_Some | done].
    + apply created_items_elem in Hrow as (p & raw & Hp & _ & ->). simpl. split.
      * rewrite stored_order_insert_items, (stored_order_insert _ db) by done.
        by eexists.
      * by apply list_elem_of_fmap_2.
  - intros row [Hrow | Hrow]%elem_of_app.
    + destruct (Hdb row Hrow) as [Ho Hp].
      split; [|done].
      by apply stored_order_update_is_Some, stored_order_insert_is_Some.
    + apply created_items_elem in Hrow as (p & raw & Hp & _ & ->). simpl. split.
      * apply stored_order_update_is_Some.
        rewrite stored_order_insert_items, (stored_order_insert _ db) by done.
        by eexists.
      * by apply list_elem_of_fmap_2.
Qed.

Lemma createOrder_keeps_items_attached_witness :
  items_reference_rows shop
  ∧ items_reference_rows (createOrder (world_gateway_down "o-1") two_kopi_one_teh shop).1.
Proof.
  assert (items_reference_rows shop) as Hshop.
  { intros row Hrow. by apply elem_of_nil in Hrow. }
  split; [exact Hshop|].
  exact (createOrder_keeps_items_attached (world_gateway_down "o-1")
           two_kopi_one_teh shop Hshop).
Defined.

(** X4.  If every stored order has the tax and grand total that lines 88
    and 89 compute from its subtotal, this still holds after a call of
    [createOrder], whatever its outcome: the reconciliation write leaves
    the monetary fields alone. *)
Theorem createOrder_keeps_totals_consistent w input db :
  Forall totals_consistent (orders db) →
  Forall totals_consistent (orders (createOrder w input db).1).
Proof.
  intros Hdb.
  destruct (createOrder_orders w input db)
    as [-> | [_ (o & -> & _ & Hs & Ht & Hg)]]; [done|].
  apply Forall_app. split; [done|].
  apply Forall_singleton. unfold totals_consistent.
  by rewrite Hs, Ht, Hg.
Qed.

Lemma createOrder_keeps_totals_consistent_witness :
  Forall totals_consistent (orders shop)
  ∧ Forall totals_consistent
      (orders (createOrder (world_ok "o-1") two_kopi_one_teh shop).1).
Proof.
  split; [constructor|].
  exact (createOrder_keeps_totals_consistent (world_ok "o-1") two_kopi_one_teh shop
           (Forall_nil_2 _)).
Defined.

(** Two valid requests that give every catalog product the same quantity
    are treated alike. *)
Lemma createOrder_same_quantities w input input' db :
  issues_from 0 input = [] → issues_from 0 input' = [] →
  (∀ p, p ∈ products db →
        client_quantity (strip <$> input) (product_id p)
        = client_quantity (strip <$> input') (product_id p)) →
  createOrder w input db = createOrder w input' db.
Proof.
  intros Hvalid Hvalid' Hsame.
  rewrite !createOrder_run, Hvalid, Hvalid'.
  unfold totals_admitted, created_order, created_items, spec_totals, spec_subtotal.
  by rewrite (matched_lines_ext _ _ _ Hsame).
Qed.

Lemma first_lines_elem seen input raw :
  raw ∈ first_lines seen input → raw ∈ input.
Proof.
  revert seen. induction input as [|raw0 input IH]; intros seen; simpl; [done|].
  destruct (decide (raw_productId raw0 ∈ seen)).
  - intros Hin. right. by eapply IH.
  - intros [->|Hin]%elem_of_cons; [left | right; by eapply IH].
Qed.

Lemma client_quantity_first_lines seen input id :
  id ∉ seen →
  client_quantity (strip <$> first_lines seen input) id
  = client_quantity (strip <$> input) id.
Proof.
  rewrite !client_quantity_strip. intros Hid. f_equal.
  revert seen Hid. induction input as [|raw input IH]; intros seen Hid; [done|].
  cbn [first_lines find].
  destruct (decide (raw_productId raw ∈ seen)) as [Hseen|Hnew].
  - destruct (String.eqb_spec (raw_productId raw) id) as [Heq|Hne];
      [by rewrite Heq in Hseen | by apply IH].
  - cbn [find].
    destruct (String.eqb_spec (raw_productId raw) id) as [Heq|Hne]; [done|].
    apply IH. by apply not_elem_of_cons.
Qed.

(** X5.  When a valid request names a product in several lines, only the
    first of them counts: [createOrder] does exactly what it does on the
    request without the later lines for an id already named (their
    quantities are neither added up nor priced). *)
Theorem createOrder_first_line_wins w input db :
  issues_from 0 input = [] →
  createOrder w input db = createOrder w (first_lines [] input) db.
Proof.
  intros Hvalid. apply createOrder_same_quantities; [done|..].
  - apply issues_from_nil in Hvalid. apply issues_from_nil.
    rewrite Forall_forall in *. intros raw Hraw%first_lines_elem. by apply Hvalid.
  - intros p _. symmetry. apply client_quantity_first_lines, not_elem_of_nil.
Qed.

Lemma createOrder_first_line_wins_witness :
  let input := [mkRawItem "p1" 2 []; mkRawItem "p1" 5 []; mkRawItem "p2" 1 []] in
  issues_from 0 input = []
  ∧ first_lines [] input = [mkRawItem "p1" 2 []; mkRawItem "p2" 1 []]
  ∧ createOrder (world_ok "o-1") input shop
    = createOrder (world_ok "o-1") (first_lines [] input) shop.
Proof.
  split; [reflexivity|]. split; [reflexivity|].
  exact (createOrder_first_line_wins (world_ok "o-1")
           [mkRawItem "p1" 2 []; mkRawItem "p1" 5 []; mkRawItem "p2" 1 []]
           shop eq_refl).
Defined.

Lemma find_line_NoDup (l : list RawItem) raw :
  NoDup (raw_productId <$> l) → raw ∈ l →
  find (λ r, String.eqb (raw_productId r) (raw_productId raw)) l = Some raw.
Proof.
  induction l as [|raw0 l IH]; [by intros _ ?%elem_of_nil|].
  rewrite fmap_cons. intros [Hnotin Hnd]%NoDup_cons [->|Hin]%elem_of_cons; cbn [find].
  - by rewrite String.eqb_refl.
  - destruct (String.eqb_spec (raw_productId raw0) (raw_productId raw)) as [Heq|_];
      [|by apply IH].
    exfalso. apply Hnotin. rewrite Heq. by apply list_elem_of_fmap_2.
Qed.

Lemma find_line_None (l : list RawItem) id :
  id ∉ raw_productId <$> l →
  find (λ r, String.eqb (raw_productId r) id) l = None.
Proof.
  induction l as [|raw0 l IH]; [done|].
  rewrite fmap_cons. intros [Hne Hl]%not_elem_of_cons. cbn [find].
  destruct (String.eqb_spec (raw_productId raw0) id) as [Heq|_]; [done | by apply IH].
Qed.

(** X6.  For a valid request that names every product at most once, the
    order of its lines has no effect: [createOrder] does the same on every
    rearrangement of the request (totals are added, and item rows
    written, in catalog order). *)
Theorem createOrder_line_order_irrelevant w input input' db :
  issues_from 0 input = [] →
  NoDup (raw_productId <$> input) →
  input ≡ₚ input' →
  createOrder w input db = createOrder w input' db.
Proof.
  intros Hvalid Hnd Hperm.
  assert (NoDup (raw_productId <$> input')) as Hnd' by by rewrite <- Hperm.
  apply createOrder_same_quantities; [done|..].
  - apply issues_from_nil in Hvalid. apply issues_from_nil. by rewrite <- Hperm.
  - intros p _. rewrite !client_quantity_strip. f_equal.
    destruct (decide (product_id p ∈ raw_productId <$> input)) as [Hin|Hnotin].
    + apply list_elem_of_fmap in Hin as (raw & -> & Hraw).
      rewrite (find_line_NoDup input raw), (find_line_NoDup input' raw);
        [done | done | by rewrite <- Hperm | done | done].
    + rewrite !find_line_None; [done | by rewrite <- Hperm | done].
Qed.

Lemma createOrder_line_order_irrelevant_witness :
  let input := [mkRawItem "p1" 2 []; mkRawItem "p2" 1 []] in
  let input' := [mkRawItem "p2" 1 []; mkRawItem "p1" 2 []] in
  (issues_from 0 input = [] ∧ NoDup (raw_productId <$> input) ∧ input ≡ₚ input')
  ∧ createOrder (world_ok "o-1") input shop = createOrder (world_ok "o-1") input' shop.
Proof.
  assert (NoDup (raw_productId <$>
                   [mkRawItem "p1" 2 []; mkRawItem "p2" 1 []])) as Hnd.
  { apply (bool_decide_unpack _). reflexivity. }
  assert ([mkRawItem "p1" 2 []; mkRawItem "p2" 1 []]
          ≡ₚ [mkRawItem "p2" 1 []; mkRawItem "p1" 2 []]) as Hperm by apply perm_swap.
  split; [split; [reflexivity | split; [exact Hnd | exact Hperm]]|].
  exact (createOrder_line_order_irrelevant (world_ok "o-1")
           [mkRawItem "p1" 2 []; mkRawItem "p2" 1 []]
           [mkRawItem "p2" 1 []; mkRawItem "p1" 2 []] shop eq_refl Hnd Hperm).
Defined.

Lemma matched_lines_nil catalog (orderItems : list ClientItem) :
  (∀ p, p ∈ catalog → product_id p ∉ item_productId <$> orderItems) →
  matched_lines catalog orderItems = [].
Proof.
  induction catalog as [|p catalog IH]; [done|]. intros Hnone.
  rewrite matched_lines_cons.
  destruct (client_quantity orderItems (product_id p)) as [q|] eqn:Hq.
  - exfalso. apply (Hnone p); [left|]. apply client_quantity_is_Some. by eexists.
  - apply IH. intros p' Hp'. apply Hnone. by right.
Qed.

(** X7.  When no line of the request names a catalog product (the empty
    request included), a call that resolves has created an order whose
    subtotal, tax and grand total are 0, has written no item row, and has
    asked the gateway for a payment of 0. *)
Theorem createOrder_without_matched_product w input db db' response :
  createOrder w input db = (db', inr response) →
  (∀ raw, raw ∈ input → raw_productId raw ∉ product_id <$> products db) →
  order response = new_order (order_create_id w) 0 0 0
  ∧ newOrderItems response = {| count := 0 |}
  ∧ orderItems db' = orderItems db
  ∧ (∃ paymentRequest, createQRIS w 0 (order_create_id w) = inr paymentRequest)
  ∧ (∃ o, stored_order (order_create_id w) db' = Some o
          ∧ order_subtotal o = 0%float ∧ order_grandTotal o = 0%float).
Proof.
  intros (paymentRequest & _ & _ & Hfresh & Hq & Horder & Hcount & ->)%createOrder_success
         Hnone.
  assert (matched_lines (products db) (strip <$> input) = []) as Hlines.
  { apply matched_lines_nil. intros p Hp (item & Hid & Hitem)%list_elem_of_fmap.
    apply list_elem_of_fmap in Hitem as (raw & -> & Hraw).
    apply (Hnone raw Hraw). simpl in Hid. rewrite <- Hid.
    by apply list_elem_of_fmap_2. }
  assert (created_order w input db = new_order (order_create_id w) 0 0 0) as Hzero.
  { unfold created_order, spec_totals, spec_subtotal. by rewrite Hlines. }
  assert (created_items w input db = []) as Hrows.
  { unfold created_items. by rewrite Hlines. }
  rewrite Hzero in *. rewrite Hrows in *.
  split; [done|]. split; [done|]. split; [simpl; by rewrite app_nil_r|].
  split; [by exists paymentRequest|].
  eexists. split.
  - rewrite stored_order_update, stored_order_insert_items,
      (stored_order_insert _ db) by done. done.
  - done.
Qed.

Lemma createOrder_without_matched_product_witness :
  let input := [mkRawItem "ghost" 3 []] in
  let response := {| order := new_order "o-1" 0 0 0;
                     newOrderItems := {| count := 0 |};
                     qrString := Some "00020101" |} in
  let db' := update_order "o-1" "pr-1" "pm-1" (insert_order (new_order "o-1" 0 0 0) shop) in
  (createOrder (world_ok "o-1") input shop = (db', inr response)
   ∧ ∀ raw, raw ∈ input → raw_productId raw ∉ product_id <$> products shop)
  ∧ order response = new_order "o-1" 0 0 0
  ∧ orderItems db' = orderItems shop.
Proof.
  assert (∀ raw, raw ∈ [mkRawItem "ghost" 3 []] →
                 raw_productId raw ∉ product_id <$> products shop) as Hnone.
  { intros raw ->%list_elem_of_singleton. apply (bool_decide_unpack _). reflexivity. }
  split; [split; [reflexivity | exact Hnone]|].
  pose proof (createOrder_without_matched_product (world_ok "o-1")
                [mkRawItem "ghost" 3 []] shop _ _ eq_refl Hnone)
    as (Horder & _ & Hrows & _).
  split; [exact Horder | exact Hrows].
Defined.

(** X8.  If the reconciliation write fails after the gateway has
    answered, the call rejects with the database error; the order and its
    item rows stay stored, the order still in its default status and
    without external ids: the ids the gateway returned are kept
    nowhere. *)
Theorem createOrder_reconciliation_failure w input db uid paymentRequest message :
  session_userId w = Some uid →
  issues_from 0 input = [] →
  product_findMany_fault w = None →
  totals_admitted w input db = true →
  order_create_fault w = None →
  stored_order (order_create_id w) db = None →
  orderItem_createMany_fault w = None →
  createQRIS w (order_grandTotal (created_order w input db)) (order_create_id w)
    = inr paymentRequest →
  order_update_fault w = Some message →
  let '(db', result) := createOrder w input db in
  result = inl (PrismaError message)
  ∧ stored_order (order_create_id w) db' = Some (created_order w input db)
  ∧ order_status (created_order w input db) = AWAITING_PAYMENT
  ∧ order_externalTransactionId (created_order w input db) = None
  ∧ order_paymentMethodId (created_order w input db) = None
  ∧ orderItems db' = orderItems db ++ created_items w input db.
Proof.
  intros Hs Hi Hf Ha Hc Hfresh Hm Hq Hu.
  rewrite createOrder_run, Hs, Hi, Hf, Ha, Hc, Hfresh, Hm. simpl.
  simpl in Hq. rewrite Hq, Hu.
  split; [done|]. split; [|done].
  rewrite stored_order_insert_items. by apply stored_order_insert.
Qed.

Lemma createOrder_reconciliation_failure_witness :
  let w := world_update_failure in
  (session_userId w = Some "user_1"
   ∧ issues_from 0 two_kopi_one_teh = []
   ∧ totals_admitted w two_kopi_one_teh shop = true
   ∧ stored_order (order_create_id w) shop = None
   ∧ createQRIS w 27500 "o-1" = inr qris
   ∧ order_update_fault w = Some "Connection lost")
  ∧ let '(db', result) := createOrder w two_kopi_one_teh shop in
    result = inl (PrismaError "Connection lost")
    ∧ stored_order (order_create_id w) db' = Some (created_order w two_kopi_one_teh shop)
    ∧ order_status (created_order w two_kopi_one_teh shop) = AWAITING_PAYMENT
    ∧ order_externalTransactionId (created_order w two_kopi_one_teh shop) = None
    ∧ order_paymentMethodId (created_order w two_kopi_one_teh shop) = None
    ∧ orderItems db' = orderItems shop ++ created_items w two_kopi_one_teh shop.
Proof.
  split; [repeat split; reflexivity|].
  exact (createOrder_reconciliation_failure world_update_failure two_kopi_one_teh shop
           "user_1" qris "Connection lost" eq_refl eq_refl eq_refl eq_refl eq_refl
           eq_refl eq_refl eq_refl eq_refl).
Defined.

(** X9.  Once the reconciliation write has succeeded, the stored order
    carries the payment ids whatever the gateway's answer holds besides:
    without a [qrCode] the call resolves with [qrString] undefined; with a
    [qrCode] that has no [channelProperties] the call rejects with a
    [TypeError], the order staying stored and reconciled; otherwise it
    resolves with the [qrString] found there. *)
Theorem createOrder_qrString_cases w input db uid paymentRequest :
  session_userId w = Some uid →
  issues_from 0 input = [] →
  product_findMany_fault w = None →
  totals_admitted w input db = true →
  order_create_fault w = None →
  stored_order (order_create_id w) db = None →
  orderItem_createMany_fault w = None →
  createQRIS w (order_grandTotal (created_order w input db)) (order_create_id w)
    = inr paymentRequest →
  order_update_fault w = None →
  let '(db', result) := createOrder w input db in
  stored_order (order_create_id w) db'
    = Some (set_payment_ids (pr_id paymentRequest)
              (pm_id (pr_paymentMethod paymentRequest)) (created_order w input db))
  ∧ match pm_qrCode (pr_paymentMethod paymentRequest) with
    | None =>
        ∃ response, result = inr response ∧ qrString response = None
    | Some qrCode =>
        match qr_channelProperties qrCode with
        | None => ∃ message, result = inl (TypeError message)
        | Some channelProperties =>
            ∃ response, result = inr response
                        ∧ qrString response = cp_qrString channelProperties
        end
    end.
Proof.
  intros Hs Hi Hf Ha Hc Hfresh Hm Hq Hu.
  rewrite createOrder_run, Hs, Hi, Hf, Ha, Hc, Hfresh, Hm. simpl.
  simpl in Hq. rewrite Hq, Hu.
  assert (stored_order (order_create_id w)
            (update_order (order_create_id w) (pr_id paymentRequest)
               (pm_id (pr_paymentMethod paymentRequest))
               (insert_items (created_items w input db)
                  (insert_order (created_order w input db) db)))
          = Some (set_payment_ids (pr_id paymentRequest)
                    (pm_id (pr_paymentMethod paymentRequest))
                    (created_order w input db))) as Hstored.
  { rewrite stored_order_update, stored_order_insert_items.
    by rewrite (stored_order_insert _ db). }
  unfold read_qrString.
  destruct (pm_qrCode (pr_paymentMethod paymentRequest)) as [qrCode|].
  - destruct (qr_channelProperties qrCode) as [channelProperties|];
      (split; [exact Hstored | by eexists]).
  - split; [exact Hstored | by eexists].
Qed.

Lemma createOrder_qrString_cases_witness :
  let w := world_qris_without_channel in
  (session_userId w = Some "user_1"
   ∧ issues_from 0 two_kopi_one_teh = []
   ∧ totals_admitted w two_kopi_one_teh shop = true
   ∧ stored_order (order_create_id w) shop = None
   ∧ createQRIS w 27500 "o-1" = inr qris_without_channel)
  ∧ let '(db', result) := createOrder w two_kopi_one_teh shop in
    (order_externalTransactionId <$> stored_order "o-1" db') = Some (Some "pr-1")
    ∧ ∃ message, result = inl (TypeError message).
Proof.
  split; [repeat split; reflexivity|].
  pose proof (createOrder_qrString_cases world_qris_without_channel
                two_kopi_one_teh shop "user_1" qris_without_channel
                eq_refl eq_refl eq_refl eq_refl eq_refl eq_refl eq_refl eq_refl eq_refl)
    as H.
  destruct (createOrder world_qris_without_channel two_kopi_one_teh shop)
    as [db' result].
  destruct H as [Hstored Hresult].
  split; [exact (f_equal (fmap order_externalTransactionId) Hstored) | exact Hresult].
Defined.

(** A quantity the parser lets through is at least 1. *)
Lemma check_quantity_None q :
  check_quantity q = None → (1 <=? q)%float = true.
Proof.
  unfold check_quantity, is_nan.
  destruct (q =? q)%float eqn:Heq; [|done]. simpl.
  destruct (q <? 1)%float eqn:Hlt; [done|]. intros _.
  rewrite FloatAxioms.eqb_spec in Heq. rewrite FloatAxioms.ltb_spec in Hlt.
  rewrite FloatAxioms.leb_spec.
  change (Prim2SF 1) with (S754_finite false 4503599627370496 (-52)) in *.
  generalize 4503599627370496%positive (-52)%Z Heq Hlt. clear Heq Hlt.
  intros m1 e1. unfold SFeqb, SFltb, SFleb.
  destruct (Prim2SF q) as [s|s| |s m e]; cbn [SFcompare].
  - intros _. by destruct s.
  - intros _. by destruct s.
  - done.
  - intros _. destruct s; [done|].
    rewrite (Z.compare_antisym e e1).
    destruct (e ?= e1)%Z eqn:He; cbn [CompOpp]; try done.
    change (Pos.compare_cont Eq m1 m) with (Pos.compare_cont (CompOpp Eq) m1 m).
    rewrite <- Pos.compare_cont_antisym.
    by destruct (Pos.compare_cont Eq m m1).
Qed.

Lemma createOrder_new_rows_valid w input db :
  ∃ rows,
    orderItems (createOrder w input db).1 = orderItems db ++ rows
    ∧ (rows = [] ∨ issues_from 0 input = [] ∧ rows = created_items w input db).
Proof.
  rewrite createOrder_run.
  destruct (session_userId w); [|exists []; by rewrite app_nil_r; auto].
  destruct (issues_from 0 input) eqn:Hvalid; [|exists []; by rewrite app_nil_r; auto].
  destruct (product_findMany_fault w); [exists []; by rewrite app_nil_r; auto|].
  destruct (totals_admitted w input db);
    [|exists []; by rewrite app_nil_r; auto]. simpl negb. cbv iota.
  destruct (order_create_fault w); [exists []; by rewrite app_nil_r; auto|].
  destruct (stored_order (order_create_id w) db);
    [exists []; by rewrite app_nil_r; auto|].
  destruct (orderItem_createMany_fault w);
    [exists []; simpl; by rewrite app_nil_r; auto|].
  exists (created_items w input db). split; [|by right]. simpl.
  destruct (createQRIS w _ _) as [|paymentRequest]; [done|].
  destruct (order_update_fault w); [done|].
  by destruct (read_qrString paymentRequest _) as [? [|qr]].
Qed.

(** X10.  Every [OrderItem] row a call of [createOrder] writes has a
    quantity of at least 1 (the quantity need not be an integer). *)
Theorem createOrder_rows_have_quantity w input db :
  ∃ rows,
    orderItems (createOrder w input db).1 = orderItems db ++ rows
    ∧ ∀ row, row ∈ rows → (1 <=? oi_quantity row)%float = true.
Proof.
  destruct (createOrder_new_rows_valid w input db) as (rows & Hrows & [-> | [Hvalid ->]]).
  - exists []. split; [done|]. by intros row ?%elem_of_nil.
  - eexists. split; [done|].
    intros row (p & raw & _ & Hfind & ->)%created_items_elem. simpl.
    apply check_quantity_None.
    apply issues_from_nil in Hvalid. rewrite Forall_forall in Hvalid.
    apply Hvalid, list_elem_of_In. by apply find_some in Hfind as [? _].
Qed.

(** X11.  For every order [createOrder] creates from matched lines with
    integer prices and quantities whose exact subtotal is below [2^53],
    the subtotal of the order is exactly that integer, whether or not it
    is a multiple of ten: the additions and multiplications of the loop
    round nothing. *)
Theorem createOrder_subtotal_exact w input db db' response zs :
  createOrder w input db = (db', inr response) →
  Forall2 integer_line (matched_lines (products db) (strip <$> input)) zs →
  (exact_subtotal zs < 2 ^ 53)%Z →
  order_subtotal (order response) = Js.of_Z (exact_subtotal zs)
  ∧ Js.isInteger (order_subtotal (order response)) = true
  ∧ Js.nonneg (order_subtotal (order response)) = true.
Proof.
  intros (paymentRequest & _ & _ & _ & _ & -> & _ & _)%createOrder_success
         Hlines Hbound.
  pose proof (exact_subtotal_nonneg _ _ Hlines) as Hnn.
  assert (order_subtotal (created_order w input db) = Js.of_Z (exact_subtotal zs)) as ->.
  { simpl. unfold spec_subtotal, js_sum. change 0%float with (Js.of_Z 0).
    by rewrite (subtotal_integers _ zs) by (done || lia). }
  split; [done|]. apply of_Z_isInteger. lia.
Qed.

Lemma createOrder_subtotal_exact_witness :
  let response := {| order := new_order "o-1" 0x1.146p+10 1005 0x1.92p+6;
                     newOrderItems := {| count := 1 |};
                     qrString := Some "00020101" |} in
  let db' := (createOrder (world_float_columns "o-1") [mkRawItem "p3" 1 []] odd_shop).1 in
  (createOrder (world_float_columns "o-1") [mkRawItem "p3" 1 []] odd_shop
   = (db', inr response)
   ∧ Forall2 integer_line
       (matched_lines (products odd_shop) (strip <$> [mkRawItem "p3" 1 []]))
       [(1005, 1)]%Z
   ∧ (exact_subtotal [(1005, 1)]%Z < 2 ^ 53)%Z)
  ∧ order_subtotal (order response) = Js.of_Z 1005
  ∧ Js.isInteger (order_subtotal (order response)) = true
  ∧ Js.nonneg (order_subtotal (order response)) = true.
Proof.
  assert (Forall2 integer_line
            (matched_lines (products odd_shop) (strip <$> [mkRawItem "p3" 1 []]))
            [(1005, 1)]%Z) as Hlines.
  { repeat constructor; simpl; lia. }
  split; [split; [reflexivity | split; [exact Hlines | reflexivity]]|].
  exact (createOrder_subtotal_exact (world_float_columns "o-1") [mkRawItem "p3" 1 []]
           odd_shop _ _ [(1005, 1)]%Z eq_refl Hlines eq_refl).
Defined.

(** Past authentication and validation, a call rejects only with what a
    database call, the gateway or a property read threw. *)
Lemma createOrder_later_errors w input db uid e :
  session_userId w = Some uid → issues_from 0 input = [] →
  (createOrder w input db).2 = inl e →
  ∃ message, e = PrismaError message ∨ e = XenditError message ∨ e = TypeError message.
Proof.
  intros Hs Hi. rewrite createOrder_run, Hs, Hi.
  destruct (product_findMany_fault w); [intros [= <-]; eexists; eauto|].
  destruct (totals_admitted w input db); [|intros [= <-]; eexists; eauto].
  simpl negb. cbv iota.
  destruct (order_create_fault w); [intros [= <-]; eexists; eauto|].
  destruct (stored_order (order_create_id w) db); [intros [= <-]; eexists; eauto|].
  destruct (orderItem_createMany_fault w); [intros [= <-]; eexists; eauto|].
  cbv zeta.
  destruct (createQRIS w _ _) as [|paymentRequest]; [intros [= <-]; eexists; eauto|].
  destruct (order_update_fault w); [intros [= <-]; eexists; eauto|].
  unfold read_qrString.
  destruct (pm_qrCode _) as [qrCode|]; [|done].
  destruct (qr_channelProperties qrCode); [done|].
  intros [= <-]; eexists; eauto.
Qed.

Lemma session_userId_None w :
  session_userId w = None
  ↔ ctx_session_userId w = None ∨ ctx_session_userId w = Some "".
Proof.
  unfold session_userId, falsy.
  destruct (ctx_session_userId w) as [uid|]; [|by split; [left|]].
  destruct (String.eqb_spec uid "") as [->|Hne].
  - split; [by right | done].
  - split; [done|]. intros [?|[= ?]]; done.
Qed.

Lemma session_userId_Some w uid :
  session_userId w = Some uid ↔ ctx_session_userId w = Some uid ∧ uid ≠ "".
Proof.
  unfold session_userId, falsy.
  destruct (ctx_session_userId w) as [uid'|]; [|by split; [|intros [? _]]].
  destruct (String.eqb_spec uid' "") as [->|Hne].
  - split; [done|]. by intros [[= <-] ?].
  - split; [by intros [= <-] | by intros [? _]].
Qed.

(** The two gates in terms of the user id that passed the guard. *)
Lemma createOrder_gates_session w input db :
  ((createOrder w input db).2 = inl UNAUTHORIZED ↔ session_userId w = None)
  ∧ ((∃ issues, (createOrder w input db).2 = inl (ZodError issues))
     ↔ is_Some (session_userId w) ∧ issues_from 0 input ≠ [])
  ∧ (session_userId w = None ∨ issues_from 0 input ≠ [] →
     (createOrder w input db).1 = db).
Proof.
  destruct (session_userId w) as [uid|] eqn:Hs.
  - destruct (issues_from 0 input) as [|issue issues] eqn:Hi.
    + pose proof (createOrder_later_errors w input db uid) as Hlater.
      split; [|split].
      * split; [|done]. intros He.
        destruct (Hlater _ Hs Hi He) as (m & [?|[?|?]]); done.
      * split; [|by intros [_ ?]]. intros [iss He].
        destruct (Hlater _ Hs Hi He) as (m & [?|[?|?]]); done.
      * by intros [?|?].
    + rewrite createOrder_run, Hs, Hi. simpl.
      split; [done|]. split; [|done]. split; [done|]. intros _. by eexists.
  - rewrite createOrder_run, Hs. simpl.
    split; [done|]. split; [|done].
    split; [by intros [? ?] | by intros [[? ?] _]].
Qed.

(** X12.  [createOrder] rejects with [UNAUTHORIZED] exactly when
    [ctx.session.userId] is falsy, that is absent or the empty string,
    also when the input is invalid; it rejects with a validation error
    exactly when the user id is a non-empty string and some quantity is
    [NaN] or below 1; in both cases the database is left as it was. *)
Theorem createOrder_gates w input db :
  ((createOrder w input db).2 = inl UNAUTHORIZED
   ↔ ctx_session_userId w = None ∨ ctx_session_userId w = Some "")
  ∧ ((∃ issues, (createOrder w input db).2 = inl (ZodError issues))
     ↔ (∃ uid, ctx_session_userId w = Some uid ∧ uid ≠ "")
       ∧ issues_from 0 input ≠ [])
  ∧ ((ctx_session_userId w = None ∨ ctx_session_userId w = Some "")
     ∨ issues_from 0 input ≠ [] →
     (createOrder w input db).1 = db).
Proof.
  destruct (createOrder_gates_session w input db) as (Hauth & Hzod & Hdb).
  split; [|split].
  - by rewrite Hauth, session_userId_None.
  - rewrite Hzod. split.
    + intros [[uid Hs] Hi]. split; [|done]. exists uid. by apply session_userId_Some.
    + intros [(uid & Hs) Hi]. split; [|done]. exists uid. by apply session_userId_Some.
  - intros [Hs | Hi]; apply Hdb; [left; by apply session_userId_None | by right].
Qed.

End OrderFurther.

(** ** The persisted totals *)

Section PersistedTotals.
Import Order OrderSpec Scenario.
Implicit Types (w : World) (db : Db) (input : list RawItem).













End PersistedTotals.

(** ** Further properties of the cart *)

Section CartFurther.
Import Cart CartSpec Scenario FurtherScenario.
Implicit Types (h : Heap) (s : CartState) (newItems : list AddToCartItem).

Lemma addAll_snoc newItems newItem hs :
  addAll (newItems ++ [newItem]) hs
  = addToCart newItem (addAll newItems hs).1 (addAll newItems hs).2.
Proof. unfold addAll. by rewrite foldl_app. Qed.

Lemma times_added_snoc pid newItems newItem :
  times_added pid (newItems ++ [newItem])
  = (times_added pid newItems + (if decide (new_productId newItem = pid) then 1 else 0))%nat.
Proof.
  unfold times_added. rewrite filter_app, length_app. f_equal.
  rewrite filter_cons, filter_nil. by destruct (decide _).
Qed.

Lemma times_added_le pid newItems : (times_added pid newItems <= length newItems)%nat.
Proof. unfold times_added. apply length_filter. Qed.

Lemma first_added_snoc pid newItems newItem :
  first_added pid (newItems ++ [newItem])
  = match first_added pid newItems with
    | Some first => Some first
    | None => if String.eqb (new_productId newItem) pid then Some newItem else None
    end.
Proof.
  unfold first_added. induction newItems as [|x l IH]; [done|].
  cbn [app find]. by destruct (String.eqb (new_productId x) pid).
Qed.

Lemma first_added_None pid newItems :
  pid ∉ new_productId <$> newItems →
  first_added pid newItems = None ∧ times_added pid newItems = 0.
Proof.
  unfold first_added, times_added.
  induction newItems as [|x l IH]; [done|].
  rewrite fmap_cons. intros [Hne Hl]%not_elem_of_cons. cbn [find].
  rewrite filter_cons, decide_False by done.
  destruct (String.eqb_spec (new_productId x) pid); [done | by apply IH].
Qed.

Lemma first_ids_elem pid newItems :
  pid ∈ first_ids newItems ↔ pid ∈ new_productId <$> newItems.
Proof.
  unfold first_ids. by rewrite elem_of_reverse, elem_of_remove_dups, elem_of_reverse.
Qed.

Lemma first_ids_snoc newItems newItem :
  first_ids (newItems ++ [newItem])
  = if decide (new_productId newItem ∈ new_productId <$> newItems)
    then first_ids newItems
    else first_ids newItems ++ [new_productId newItem].
Proof.
  unfold first_ids. rewrite fmap_app, reverse_app. simpl.
  destruct (decide (new_productId newItem ∈ new_productId <$> newItems)) as [Hin|Hnotin];
    destruct (decide_rel elem_of _ _) as [Hrev|Hrev].
  - done.
  - exfalso. apply Hrev. by rewrite elem_of_reverse.
  - exfalso. apply Hnotin. by rewrite elem_of_reverse in Hrev.
  - by rewrite reverse_cons.
Qed.

Lemma describes_other newItems newItem c :
  productId c ≠ new_productId newItem →
  describes newItems c → describes (newItems ++ [newItem]) c.
Proof.
  intros Hne (first & Hfirst & Hn & Hp & Hi & Hq).
  exists first. rewrite first_added_snoc, Hfirst, times_added_snoc.
  rewrite decide_False by done. by rewrite Nat.add_0_r.
Qed.

Lemma addAll_describes newItems :
  (Z.of_nat (length newItems) < 2 ^ 53)%Z →
  wf (addAll newItems (empty_heap, empty_cart)).1 (addAll newItems (empty_heap, empty_cart)).2
  ∧ one_line_per_product (addAll newItems (empty_heap, empty_cart)).1
      (addAll newItems (empty_heap, empty_cart)).2
  ∧ productId <$> view (addAll newItems (empty_heap, empty_cart)).1
                    (addAll newItems (empty_heap, empty_cart)).2
    = first_ids newItems
  ∧ ∀ c, c ∈ view (addAll newItems (empty_heap, empty_cart)).1
               (addAll newItems (empty_heap, empty_cart)).2 →
         describes newItems c.
Proof.
  induction newItems as [|newItem newItems IH] using rev_ind; intros Hlen.
  - split; [apply wf_empty|]. split; [apply one_line_per_product_empty|].
    split; [done|]. by intros c ?%elem_of_nil.
  - rewrite length_app in Hlen. simpl in Hlen.
    destruct IH as (Hwf & Hnd & Hids & Hlines); [lia|].
    rewrite addAll_snoc.
    destruct (addAll newItems (empty_heap, empty_cart)) as [h s]. simpl in *.
    destruct (addToCart_view newItem h s Hwf Hnd) as (Hwf' & Hnd' & Hview).
    split; [done|]. split; [done|]. rewrite Hview. clear Hview Hwf' Hnd'.
    rewrite first_ids_snoc.
    destruct (list_find _ (view h s)) as [[i c]|] eqn:Hfind.
    + apply list_find_Some in Hfind as (Hi & Hpid & _).
      assert (new_productId newItem ∈ new_productId <$> newItems) as Hin.
      { apply first_ids_elem. rewrite <- Hids, <- Hpid.
        apply list_elem_of_fmap_2. by eapply list_elem_of_lookup_2. }
      rewrite decide_True by done. split.
      * rewrite list_fmap_insert, list_insert_id; [done|].
        by rewrite list_lookup_fmap, Hi.
      * intros c' (j & Hj)%list_elem_of_lookup_1.
        destruct (decide (i = j)) as [<-|Hij].
        -- rewrite list_lookup_insert_eq in Hj by by eapply lookup_lt_Some.
           injection Hj as <-.
           destruct (Hlines c) as (first & Hfirst & Hn & Hp & Him & Hq);
             [by eapply list_elem_of_lookup_2|].
           exists first. simpl. rewrite first_added_snoc, Hfirst, times_added_snoc.
           rewrite decide_True by done.
           split; [done|]. split; [done|]. split; [done|]. split; [done|].
           rewrite Hq. change 1%float with (Js.of_Z 1).
           pose proof (times_added_le (productId c) newItems).
           rewrite add_integers_exact by lia. f_equal. lia.
        -- rewrite list_lookup_insert_ne in Hj by done.
           apply describes_other; [|by eapply Hlines, list_elem_of_lookup_2].
           intros Heq. apply Hij.
           apply (NoDup_lookup (productId <$> view h s) i j (productId c)); [done|..].
           ++ by rewrite list_lookup_fmap, Hi.
           ++ rewrite list_lookup_fmap, Hj. simpl. by rewrite Heq, Hpid.
    + apply list_find_None in Hfind. rewrite Forall_forall in Hfind.
      assert (new_productId newItem ∉ new_productId <$> newItems) as Hnotin.
      { rewrite <- first_ids_elem, <- Hids.
        intros (c & Hc & Hin)%list_elem_of_fmap. by apply (Hfind c). }
      rewrite decide_False by done. split.
      * by rewrite fmap_app, Hids.
      * intros c' [Hin | ->%list_elem_of_singleton]%elem_of_app.
        -- apply describes_other; [|by apply Hlines].
           by apply Hfind.
        -- destruct (first_added_None _ _ Hnotin) as [Hfirst Htimes].
           exists newItem. simpl.
           rewrite first_added_snoc, Hfirst, String.eqb_refl, times_added_snoc, Htimes.
           by rewrite decide_True.
Qed.

(** X14, at the cart that holds one line for product "A", when "A" is
    added again. *)
Lemma addToCart_prior_state_witness :
  (wf (addToCart kopi empty_heap empty_cart).1 (addToCart kopi empty_heap empty_cart).2
   ∧ one_line_per_product (addToCart kopi empty_heap empty_cart).1
       (addToCart kopi empty_heap empty_cart).2)
  ∧ (items (addToCart kopi (addToCart kopi empty_heap empty_cart).1
              (addToCart kopi empty_heap empty_cart).2).2
     ≠ items (addToCart kopi empty_heap empty_cart).2
     ∧ array_at (addToCart kopi (addToCart kopi empty_heap empty_cart).1
                   (addToCart kopi empty_heap empty_cart).2).1
         (items (addToCart kopi empty_heap empty_cart).2)
       = array_at (addToCart kopi empty_heap empty_cart).1
           (items (addToCart kopi empty_heap empty_cart).2)
     ∧ view (addToCart kopi (addToCart kopi empty_heap empty_cart).1
               (addToCart kopi empty_heap empty_cart).2).1
         (addToCart kopi empty_heap empty_cart).2
       = match list_find (λ c, productId c = new_productId kopi)
                 (view (addToCart kopi empty_heap empty_cart).1
                    (addToCart kopi empty_heap empty_cart).2) with
         | None => view (addToCart kopi empty_heap empty_cart).1
                     (addToCart kopi empty_heap empty_cart).2
         | Some (i, c) =>
             <[i := bump c]> (view (addToCart kopi empty_heap empty_cart).1
                                (addToCart kopi empty_heap empty_cart).2)
         end).
Proof.
  destruct (addToCart_view kopi _ _ wf_empty one_line_per_product_empty)
    as (Hwf & Hnd & _).
  split; [done|].
  exact (addToCart_prior_state kopi _ _ Hwf Hnd).
Defined.

(** X15. The cart counts the adds.  After any sequence of fewer than
    2^53 calls of [addToCart] on the empty cart, the cart lists the
    product ids in the order in which each was first added, one line
    each; a line carries the name, price and image of the first add of
    its product (later adds of the same id do not change them) and its
    quantity is the number of adds of that id. *)
Theorem addAll_counts newItems :
  (Z.of_nat (length newItems) < 2 ^ 53)%Z →
  productId <$> view (addAll newItems (empty_heap, empty_cart)).1
                  (addAll newItems (empty_heap, empty_cart)).2
  = first_ids newItems
  ∧ ∀ c, c ∈ view (addAll newItems (empty_heap, empty_cart)).1
               (addAll newItems (empty_heap, empty_cart)).2 →
         describes newItems c.
Proof.
  intros Hlen. by destruct (addAll_describes newItems Hlen) as (_ & _ & ? & ?).
Qed.

(** X15, for "A", "B", "A" added in this order. *)
Lemma addAll_counts_witness :
  (Z.of_nat (length kopi_teh_kopi) < 2 ^ 53)%Z
  ∧ (productId <$> view (addAll kopi_teh_kopi (empty_heap, empty_cart)).1
                     (addAll kopi_teh_kopi (empty_heap, empty_cart)).2
     = first_ids kopi_teh_kopi
     ∧ ∀ c, c ∈ view (addAll kopi_teh_kopi (empty_heap, empty_cart)).1
                  (addAll kopi_teh_kopi (empty_heap, empty_cart)).2 →
            describes kopi_teh_kopi c).
Proof.
  split; [reflexivity|].
  exact (addAll_counts kopi_teh_kopi eq_refl).
Defined.

End CartFurther.

